(* ===== verification/_CoqProject ===== *)
-Q . S2P
Prelude.v
PyStr.v
PyRandom.v
Phonology.v
Morphology.v
Syntax.v
Vocab.v
Game.v
Emits.v
GameProps.v
Output.v
Exec.v
Stages.v
Menus.v
Session.v
