(* ===== verification/Prelude.v ===== *)
(** * Truku language-creator game: a verification development

    Program: [src/truku_creator_game.py] (one Python file, 182 lines). It is
    an interactive console game. The player builds a toy language in three
    stages (phonology, morphology, syntax) and then sees six fixed example
    sentences.

    ** The program and how its parts interact

    - [PhonologySystem] (lines 6-19) holds a consonant set, a vowel set and
      a list of syllable patterns. [generate_word] draws 1-3 syllables, and
      each syllable is a pattern with every slot drawn from the matching set.
    - [MorphologySystem] (lines 21-38) is a list of affixation rules.
      [apply_morphology] applies the first rule with the requested name.
    - [SyntaxSystem] (lines 40-49) holds a word order and a question
      marker. [generate_sentence] lays out subject, verb and object.
    - [LanguageCreatorGame] (lines 51-179) owns one of each, plus a
      [defaultdict(list)] vocabulary. It runs the stages in sequence:
      - [level_1_phonology] edits the sets from a menu, then files 5
        generated words as "unknown".
      - [level_2_morphology] adds rules from a menu, seeds three default
        rules into an empty table, moves each unknown word to "verb" or
        "noun" by a coin flip, and demonstrates two rules.
      - [level_3_syntax] sets the order and the marker, then prints 3
        sentences of bucket words.
      - [final_showcase] prints six fixed sentences.

    ** Layout: which file models which part

    - [Prelude] (this file) defines the effects. [st S A] is a state monad
      whose outcome is [Ret], [Exn] (a Python exception, the state kept) or
      [NoFuel]. It also has [lift] for running a component inside a bigger
      state, [for_each]/[for_range] for Python [for], and three program
      logics:
      - [preserves I m]: invariants, whatever the outcome;
      - [total m]: never out of fuel;
      - [runs m s P]: returns, and satisfies [P].
      It also has [raises] and [exn_only], which say which exceptions are
      raised and in what state.
    - [PyStr] models Python [str.strip] and [str.split] over ASCII
      whitespace.
    - [PyRandom] defines the interface [RandomSource]. [choice], [randint]
      and [random() > 0.5] are defined on top of it, and [scripted] is a
      replaying instance used by the witnesses.
    - [Phonology] defines [PhonologySystem], [generate_syllable] and
      [generate_word] (with the generator expression of line 14 as
      [slot]/[gen_slots]), and the four set edits.
    - [Morphology] defines the rule table, [add_rule], [apply_morphology]
      (the loop as [apply_rules]) and [seed_default_rules]. Its
      specification is [lookup_affix].
    - [Syntax] defines [SyntaxSystem], [generate_sentence], the two setters
      and the question form. Its specification is [arrange].
    - [Vocab] models the [defaultdict(list)] as a [gmap], with insertion on
      read. It also defines [dd_equiv] and [Proper] instances.
    - [Game] models the stages, one Definition per method or menu pass.
      The state is a [World]:
      - the game fields;
      - the unread input lines;
      - the printed [Out] events (the exact text of each is [render]);
      - the random state.
      [input] prints its prompt and pops a line, or raises [EOFError].
      [main lines g] runs [run_game] from [__init__]'s state.
    - [Emits] is a program logic for the printed output: [emits proj m B]
      says that the events [m] prints, seen through the projection
      [proj], are a prefix of [B] whatever the outcome, and all of [B]
      when [m] returns. It has one rule per primitive and per control
      structure of [Game].
    - [GameProps] proves termination, reclassification, the exception
      classification and the run invariant ([game_ok], including the
      typing of the vocabulary keys).
    - [Output] proves what stage 1 prints on entry: the inventory lines,
      sorted ([join_sorted_spec]), in their place on the screen.
    - [Stages] models the stage machine of spec section 5 ([Stage],
      [stage_step], [stage_path]). The program has no stage variable: a
      stage is entered by a call of [run_game] and shows as its title line
      ([banner]). [Emits.emits] through [banner_of] reads the stages a run
      enters, through [sample_of] its showcase lines, and through
      [number_of] the numbers of its numbered lines.
    - [Exec] holds the symbolic-execution rules and tactics ([exec_step]).
      It also has the transcript projections ([words_of] and the like).
    - [Menus] models the two menus as interpreters of abstract commands
      ([PhonCmd], [MorphCmd]). [runs_menu] is a generic simulation lemma:
      a menu loop refines the fold of its commands.
    - [Session] executes whole sessions symbolically: any command script
      ([session_script]), the default script, the loss of every vowel, and
      input that ends inside the stage-1 menu.

    ** What the theorems show (ids as in the manifest)

    - End to end ([Session.default_session]): answering Enter at every
      prompt runs to completion for every random source. The run prints 5
      words and 3 sentences with their questions, then the six showcase
      lines verbatim, and leaves the default rules seeded and the
      vocabulary correctly partitioned.
    - Liveness ([Session.session_completes]): the same holds for any
      command script whose edited inventory is non-empty. The final state
      is the fold of the commands.
    - Menus: the stage-1 loop refines the fold of the abstract edits
      ([apply_phon]). The stage-2 loop leaves exactly the player's rules,
      or the three defaults when the player added none. Input that ends
      inside a menu, after complete commands and part of one more
      ([raises_menu]), raises [EOFError] with the complete commands
      applied and nothing else: [Session.phonology_input_ends] (no word
      generated, no random draw) and [Menus.morphology_menu_eof] (the
      incomplete rule not added, the defaults not seeded).
    - Stage machine ([Stages.stages_linear]): on any input and draws, and
      whatever the outcome, the title lines of a run are a path of the
      linear machine from [Welcome]; a run that returns has entered all
      five stages. The showcase is static ([Stages.showcase_static]): on
      any input and draws a run prints a prefix of the six sentences the
      specification fixes, numbered 1-6, and all of them when it returns.
    - Numbered lines ([Stages.line_numbers]): on any input and draws, the
      words, sentences and showcase lines are numbered 1-5, 1-3, 1-6, a
      prefix of that when the run stops early.
    - Stage-1 screen ([Output.stage1_inventory_screen]): from any state,
      stage 1 shows the current consonants, then the current vowels, each
      sorted under its label.
    - Components:
      - [generate_sentence] lays the words out in the order's arrangement
        (round trip through [split]).
      - [apply_morphology] refines [lookup_affix].
      - [generate_word] is totally correct on a non-empty inventory.
      - [add_rule] then [apply_morphology] applies the new rule, unless a
        rule of the same name shadows it.
      - Seeding happens only on an empty table.
      - Default words have 1-9 letters.
    - Runs: every run terminates ([total]). Every run keeps the invariant
      [game_ok], including the typing of the vocabulary keys.
      Reclassification is a partition.
    - Error paths:
      - A run ends only in [EOFError] (input exhausted) or in [IndexError]
        with an emptied consonant or vowel set.
      - Any commands that empty the vowel set do crash the run.
      - A rule with an unknown type is skipped ([apply_morphology_spec]).
    - [random() > 0.5] is true for [2^52 - 1] of the [2^53] draws: the
      coin of line 127 is not fair.

    ** Bounds and fuel

    The only unbounded loops are the two [while True] menus. [while_true]
    runs a menu with fuel one more than the number of unread input lines.
    Every pass of a menu reads a line ([GameProps.decr_phonology_step],
    [decr_morphology_step]), so a pass that finds no line raises
    [EOFError] before the fuel runs out. [run_game_total] proves that
    [NoFuel] is never reached. The [for] loops are over finite lists.
    Randomness is universally quantified: the theorems hold for every
    [RandomSource].

    ** Not modelled

    - The Mersenne Twister itself: only the ranges of [_randbelow] and of
      [random()] are assumed, through the class laws.
    - The order of [list(set)], which is unspecified in Python: it is fixed
      but arbitrary here, and no theorem depends on it.
    - Unicode whitespace beyond ASCII in [strip]/[split]. The inputs of the
      scenarios are ASCII.
    - The terminal itself: [print] and [input] are events on the [World],
      and rendering is the pure function [render].
    - The [__main__] guard (lines 181-182), which is [main]. *)

From stdpp Require Export base list strings.
From Stdlib Require Export String Ascii ZArith Lia.

(** [length] is the length of a list; the length of a string is written
    [String.length]. *)
Abbreviation length := List.length.

(** ** Python exceptions the program can raise

    [IndexError] is raised by [random.choice] on an empty sequence,
    [EOFError] by [input()] when standard input is exhausted, [ValueError]
    by [random.randint(a, b)] when [b < a] (the program only calls
    [randint(1, 3)], so this one is never raised). *)
Inductive PyExc := IndexError | EOFError | ValueError.

#[export] Instance PyExc_eq_dec : EqDecision PyExc.
Proof. solve_decision. Qed.

(** ** A state monad with Python exceptions and fuel

    [st S A] threads a state [S]. A computation ends in [Ret] with a value,
    in [Exn] when an exception propagates (the program has no [try], so an
    exception ends the run; its state is kept so that what was printed
    before the crash stays observable), or in [NoFuel] when a bounded loop
    ran out of its bound. The termination theorems show that [NoFuel] is
    never reached with the bounds the model chooses. *)
Inductive outcome (S A : Type) :=
| Ret (a : A) (s : S)
| Exn (e : PyExc) (s : S)
| NoFuel (s : S).
Arguments Ret {S A} a s.
Arguments Exn {S A} e s.
Arguments NoFuel {S A} s.

Definition st (S A : Type) := S -> outcome S A.

Section Monad.
Context {S : Type}.

Definition ret {A} (a : A) : st S A := fun s => Ret a s.

Definition bind {A B} (m : st S A) (k : A -> st S B) : st S B :=
  fun s => match m s with
           | Ret a s' => k a s'
           | Exn e s' => Exn e s'
           | NoFuel s' => NoFuel s'
           end.

Definition get : st S S := fun s => Ret s s.
Definition put (s : S) : st S unit := fun _ => Ret tt s.
Definition modify (f : S -> S) : st S unit := fun s => Ret tt (f s).
Definition gets {A} (f : S -> A) : st S A := fun s => Ret (f s) s.
Definition raise {A} (e : PyExc) : st S A := fun s => Exn e s.
Definition out_of_fuel {A} : st S A := fun s => NoFuel s.

(** The state an outcome ends in, whatever the outcome. *)
Definition final {A} (o : outcome S A) : S :=
  match o with Ret _ s | Exn _ s | NoFuel s => s end.
End Monad.

Declare Scope py_scope.
Delimit Scope py_scope with py.
Notation "x <- m ;; k" := (bind m (fun x => k))
  (at level 100, m at next level, right associativity) : py_scope.
Notation "m ;; k" := (bind m (fun _ => k))
  (at level 100, right associativity) : py_scope.
Open Scope py_scope.

(** Running a computation of a component inside a bigger state: [view]
    extracts the component's state and [update] writes it back, on every
    outcome (an exception inside the component keeps what it changed). *)
Definition lift {S T A} (view : S -> T) (update : T -> S -> S) (m : st T A) : st S A :=
  fun s => match m (view s) with
           | Ret a t => Ret a (update t s)
           | Exn e t => Exn e (update t s)
           | NoFuel t => NoFuel (update t s)
           end.

(** [for x in xs: body(x)] *)
Fixpoint for_each {S A} (xs : list A) (body : A -> st S unit) : st S unit :=
  match xs with
  | [] => ret tt
  | x :: xs' => body x ;; for_each xs' body
  end.

(** [for i in range(n): body(i)] *)
Definition for_range {S} (n : nat) (body : nat -> st S unit) : st S unit :=
  for_each (seq 0 n) body.

(** ** Monad laws (pointwise) and running lemmas *)
Section Laws.
Context {S : Type}.

Lemma bind_ret_l {A B} (a : A) (k : A -> st S B) s : bind (ret a) k s = k a s.
Proof. reflexivity. Qed.

Lemma bind_ret_r {A} (m : st S A) s : bind m ret s = m s.
Proof. unfold bind. by destruct (m s). Qed.

Lemma bind_assoc {A B C} (m : st S A) (k : A -> st S B) (h : B -> st S C) s :
  bind (bind m k) h s = bind m (fun a => bind (k a) h) s.
Proof. unfold bind. by destruct (m s). Qed.

Lemma bind_Ret {A B} (m : st S A) (k : A -> st S B) s a s' :
  m s = Ret a s' -> bind m k s = k a s'.
Proof. unfold bind. by intros ->. Qed.

Lemma bind_Exn {A B} (m : st S A) (k : A -> st S B) s e s' :
  m s = Exn e s' -> bind m k s = Exn e s'.
Proof. unfold bind. by intros ->. Qed.

Lemma bind_Ret_inv {A B} (m : st S A) (k : A -> st S B) s b s'' :
  bind m k s = Ret b s'' -> exists a s', m s = Ret a s' /\ k a s' = Ret b s''.
Proof. unfold bind. destruct (m s); intros H; [eauto|discriminate..]. Qed.

Lemma bind_Exn_inv {A B} (m : st S A) (k : A -> st S B) s e s'' :
  bind m k s = Exn e s'' ->
  m s = Exn e s'' \/ exists a s', m s = Ret a s' /\ k a s' = Exn e s''.
Proof. unfold bind. destruct (m s); intros H; simplify_eq; eauto. Qed.

Lemma ret_Ret_inv {A} (a b : A) (s s' : S) : ret a s = Ret b s' -> a = b /\ s = s'.
Proof. by inversion 1. Qed.
End Laws.

(** [bind_inv H] splits a hypothesis [H : bind m k s = Ret b s''] into the
    run of [m] and the run of the continuation. *)
Ltac bind_inv H :=
  let a := fresh "a" in let s := fresh "s" in let Hm := fresh "Hm" in
  apply bind_Ret_inv in H; destruct H as (a & s & Hm & H).

Ltac ret_inv H := apply ret_Ret_inv in H; destruct H as [? ?]; subst.

Create HintDb py discriminated.
Create Rewrite HintDb py_rw.
#[export] Hint Rewrite @bind_ret_l @bind_assoc : py_rw.

(** ** Invariants: a predicate on the state kept by a computation

    [preserves I m]: from a state satisfying [I], [m] ends, whatever its
    outcome, in a state satisfying [I]. The combinators below let each
    component prove that its operations keep its invariant one operation
    at a time. *)
Section Invariants.
Context {S : Type} (I : S -> Prop).

Definition preserves {A} (m : st S A) : Prop :=
  forall s, I s -> I (final (m s)).

Lemma preserves_ret {A} (a : A) : preserves (ret a).
Proof. by intros s. Qed.

Lemma preserves_get : preserves get.
Proof. by intros s. Qed.

Lemma preserves_raise {A} e : preserves (@raise S A e).
Proof. by intros s. Qed.

Lemma preserves_modify f : (forall s, I s -> I (f s)) -> preserves (modify f).
Proof. intros Hf s Hs. by apply Hf. Qed.

Lemma preserves_bind {A B} (m : st S A) (k : A -> st S B) :
  preserves m -> (forall a, preserves (k a)) -> preserves (bind m k).
Proof.
  intros Hm Hk s Hs. specialize (Hm s Hs). unfold bind.
  destruct (m s); simpl in *; auto. by apply Hk.
Qed.

Lemma preserves_for_each {A} (xs : list A) body :
  (forall x, preserves (body x)) -> preserves (for_each xs body).
Proof.
  intros Hb. induction xs; simpl; [apply preserves_ret|].
  by apply preserves_bind.
Qed.

Lemma preserves_if {A} (b : bool) (m1 m2 : st S A) :
  preserves m1 -> preserves m2 -> preserves (if b then m1 else m2).
Proof. by destruct b. Qed.
End Invariants.

Lemma preserves_lift {S T A} (I : S -> Prop) (J : T -> Prop) view update (m : st T A) :
  (forall s, I s -> J (view s)) ->
  (forall s t, I s -> J t -> I (update t s)) ->
  preserves J m -> preserves I (lift view update m).
Proof.
  intros Hv Hu Hm s Hs. specialize (Hm (view s) (Hv s Hs)). unfold lift.
  destruct (m (view s)); simpl in *; auto.
Qed.

#[export] Hint Resolve preserves_ret preserves_get preserves_raise preserves_bind
  preserves_for_each preserves_if : py.

(** ** Totality: a computation that never runs out of fuel *)
Definition fuel_free {S A} (o : outcome S A) : Prop :=
  match o with NoFuel _ => False | _ => True end.

Definition total {S A} (m : st S A) : Prop := forall s, fuel_free (m s).

Lemma total_ret {S A} (a : A) : total (S:=S) (ret a).
Proof. by intros s. Qed.

Lemma total_get {S} : total (S:=S) get.
Proof. by intros s. Qed.

Lemma total_raise {S A} e : total (S:=S) (A:=A) (raise e).
Proof. by intros s. Qed.

Lemma total_bind {S A B} (m : st S A) (k : A -> st S B) :
  total m -> (forall a, total (k a)) -> total (bind m k).
Proof.
  intros Hm Hk s. specialize (Hm s). unfold bind.
  destruct (m s); simpl in *; auto. apply Hk.
Qed.

Lemma total_for_each {S A} (xs : list A) (body : A -> st S unit) :
  (forall x, total (body x)) -> total (for_each xs body).
Proof. intros Hb. induction xs; simpl; [apply total_ret | by apply total_bind]. Qed.

Lemma total_lift {S T A} view update (m : st T A) :
  total m -> total (S:=S) (lift view update m).
Proof. intros Hm s. specialize (Hm (view s)). unfold lift. by destruct (m (view s)). Qed.

Lemma total_if {S A} (b : bool) (m1 m2 : st S A) :
  total m1 -> total m2 -> total (if b then m1 else m2).
Proof. by destruct b. Qed.

#[export] Hint Resolve total_ret total_get total_raise total_bind total_for_each total_lift total_if : py.

(** ** Normal termination with a postcondition

    [runs m s P]: [m] run from [s] returns normally, in a state and with a
    value that satisfy [P]. The rules below execute a computation step by
    step; [runs_step] applies them. *)
Definition runs {S A} (m : st S A) (s : S) (P : A -> S -> Prop) : Prop :=
  exists a s', m s = Ret a s' /\ P a s'.

Lemma runs_ret {S A} (a : A) (s : S) (P : A -> S -> Prop) : P a s -> runs (ret a) s P.
Proof. intros H. by exists a, s. Qed.

Lemma runs_bind {S A B} (m : st S A) (k : A -> st S B) s P :
  runs m s (fun a s' => runs (k a) s' P) -> runs (bind m k) s P.
Proof.
  intros (a & s' & Hm & b & s'' & Hk & HP). exists b, s''.
  split; [by rewrite (bind_Ret _ _ _ _ _ Hm) | done].
Qed.

Lemma runs_mono {S A} (m : st S A) s (P Q : A -> S -> Prop) :
  (forall a s', P a s' -> Q a s') -> runs m s P -> runs m s Q.
Proof. intros HPQ (a & s' & Hm & HP). exists a, s'. auto. Qed.

Lemma runs_Ret {S A} (m : st S A) s a s' (P : A -> S -> Prop) :
  m s = Ret a s' -> P a s' -> runs m s P.
Proof. intros Hm HP. by exists a, s'. Qed.

Lemma runs_lift {S T A} view update (m : st T A) s (P : A -> S -> Prop) :
  runs m (view s) (fun a t => P a (update t s)) -> runs (lift view update m) s P.
Proof. intros (a & t & Hm & HP). exists a, (update t s). unfold lift. by rewrite Hm. Qed.

(** [raises m s e Q]: [m] run from [s] raises [e] in a state satisfying
    [Q]; the exception propagates through [bind]. *)
Definition raises {S A} (m : st S A) (s : S) (e : PyExc) (Q : S -> Prop) : Prop :=
  exists s', m s = Exn e s' /\ Q s'.

Lemma raises_mono {S A} (m : st S A) s e (Q Q' : S -> Prop) :
  (forall s', Q s' -> Q' s') -> raises m s e Q -> raises m s e Q'.
Proof. intros HQ (s' & Hm & Hs'). exists s'. auto. Qed.

Lemma raises_bind_l {S A B} (m : st S A) (k : A -> st S B) s e Q :
  raises m s e Q -> raises (bind m k) s e Q.
Proof. intros (s' & Hm & HQ). exists s'. by rewrite (bind_Exn _ _ _ _ _ Hm). Qed.

Lemma raises_bind_r {S A B} (m : st S A) (k : A -> st S B) s e Q :
  runs m s (fun a s' => raises (k a) s' e Q) -> raises (bind m k) s e Q.
Proof.
  intros (a & s' & Hm & s'' & Hk & HQ). exists s''. by rewrite (bind_Ret _ _ _ _ _ Hm).
Qed.

(** ** Which exceptions a computation can raise

    [exn_only P m]: every exception [m] raises satisfies [P] (with the
    state it is raised in). *)
Section ExnOnly.
Context {S : Type} (P : PyExc -> S -> Prop).

Definition exn_only {A} (m : st S A) : Prop := forall s e s', m s = Exn e s' -> P e s'.

Lemma exn_only_ret {A} (a : A) : exn_only (ret a).
Proof. by intros s e s' H. Qed.

Lemma exn_only_get : exn_only get.
Proof. by intros s e s' H. Qed.

Lemma exn_only_modify f : exn_only (modify f).
Proof. by intros s e s' H. Qed.

Lemma exn_only_gets {A} (f : S -> A) : exn_only (gets f).
Proof. by intros s e s' H. Qed.

Lemma exn_only_bind {A B} (m : st S A) (k : A -> st S B) :
  exn_only m -> (forall a, exn_only (k a)) -> exn_only (bind m k).
Proof.
  intros Hm Hk s e s'' H. apply bind_Exn_inv in H as [H | (a & s' & _ & H)]; [exact (Hm _ _ _ H) | exact (Hk a _ _ _ H)].
Qed.

Lemma exn_only_for_each {A} (xs : list A) (body : A -> st S unit) :
  (forall x, exn_only (body x)) -> exn_only (for_each xs body).
Proof. intros Hb. induction xs; simpl; [apply exn_only_ret | by apply exn_only_bind]. Qed.

Lemma exn_only_out_of_fuel {A} : exn_only (@out_of_fuel S A).
Proof. by intros s e s' H. Qed.
End ExnOnly.

#[export] Hint Resolve exn_only_ret exn_only_get exn_only_modify exn_only_gets
  exn_only_out_of_fuel : py.

Ltac runs_step :=
  first
    [ apply runs_bind
    | apply runs_ret
    | eapply runs_Ret; [reflexivity|] ].

(** ** Strings

    stdpp makes [String.append] opaque to [simpl]; the string functions of
    this development are defined by recursion on their first argument, so
    [simpl] is allowed to unfold [append] on a constructor again. *)
#[global] Arguments String.append : simpl nomatch.

Lemma string_app_nil_r (s : string) : (s ++ "")%string = s.
Proof. induction s; simpl; congruence. Qed.

Lemma string_app_assoc (a b c : string) : (a ++ b ++ c)%string = ((a ++ b) ++ c)%string.
Proof. induction a; simpl; congruence. Qed.

Lemma string_length_app (a b : string) : String.length (a ++ b) = String.length a + String.length b.
Proof. induction a; simpl; congruence. Qed.

#[export] Hint Rewrite string_app_nil_r string_length_app : py_rw.

(** [decide] on string equality, as the Python [==] on [str]. *)
Lemma string_eqb_decide (a b : string) : (a =? b)%string = bool_decide (a = b).
Proof. destruct (String.eqb_spec a b); by case_bool_decide. Qed.

Ltac py_run := repeat (unfold bind, ret, get, put, modify, gets, raise in *; simpl in *).
