(* ===== verification/PyStr.v ===== *)
(** * Python [str] operations used by the game

    The game strips every line it reads ([input(...).strip()]) and
    [SyntaxSystem.generate_sentence] strips the sentence it formats. The
    specification of the sentence generator is stated through [str.split()]
    (no separator): the whitespace-separated tokens of the sentence. This
    file models the three operations on ASCII strings, after CPython's
    [unicode_strip]/[split_whitespace]: the whitespace characters are those
    for which [str.isspace()] holds, i.e. the ASCII codes 9-13 and 28-32. *)
From S2P Require Import Prelude.

Module PyStr.

(** [c.isspace()] for an ASCII character. *)
Definition is_space (c : ascii) : bool :=
  let n := nat_of_ascii c in
  ((9 <=? n) && (n <=? 13)) || ((28 <=? n) && (n <=? 32)).

(** [s.lstrip()] *)
Fixpoint lstrip (s : string) : string :=
  match s with
  | EmptyString => EmptyString
  | String c r => if is_space c then lstrip r else s
  end.

(** [s.rstrip()] *)
Fixpoint rstrip (s : string) : string :=
  match s with
  | EmptyString => EmptyString
  | String c r =>
      match rstrip r with
      | EmptyString => if is_space c then EmptyString else String c EmptyString
      | r' => String c r'
      end
  end.

(** [s.strip()] *)
Definition strip (s : string) : string := rstrip (lstrip s).

(** [str.split()] without a separator: the maximal runs of non-space
    characters, in order. [attach c glue ws] puts the non-space character
    [c] in front of the split of the rest: glued to the first word when the
    rest starts with a non-space character, as a word of its own otherwise. *)
Definition starts_word (s : string) : bool :=
  match s with
  | String c _ => negb (is_space c)
  | EmptyString => false
  end.

Definition attach (c : ascii) (glue : bool) (ws : list string) : list string :=
  match ws with
  | w :: ws' => if glue then String c w :: ws' else String c EmptyString :: w :: ws'
  | [] => [String c EmptyString]
  end.

Fixpoint split (s : string) : list string :=
  match s with
  | EmptyString => []
  | String c r => if is_space c then split r else attach c (starts_word r) (split r)
  end.

(** A token: a string without whitespace (possibly empty). *)
Fixpoint no_space (s : string) : bool :=
  match s with
  | EmptyString => true
  | String c r => negb (is_space c) && no_space r
  end.

(** The split of a token: itself, or nothing when it is empty. *)
Definition token_words (w : string) : list string :=
  match w with EmptyString => [] | _ => [w] end.

(** ** Lemmas *)

Lemma lstrip_starts_word t : starts_word t = true -> lstrip t = t.
Proof. destruct t as [|c r]; simpl; [done|]. by destruct (is_space c). Qed.

Lemma space_is_space : is_space " " = true.
Proof. reflexivity. Qed.

Lemma attach_false_app c ws vs : attach c false (ws ++ vs) = attach c false ws ++ vs.
Proof. destruct ws, vs; reflexivity. Qed.

Lemma attach_true_app c ws vs : ws <> [] -> attach c true (ws ++ vs) = attach c true ws ++ vs.
Proof. destruct ws; [done|reflexivity]. Qed.

Lemma starts_word_split s : starts_word s = true -> split s <> [].
Proof.
  destruct s as [|c r]; simpl; [done|].
  destruct (is_space c); simpl; [done|]. intros _.
  destruct (split r); simpl; [done|]. by destruct (starts_word r).
Qed.

Lemma starts_word_app a b : a <> EmptyString -> starts_word (a ++ b) = starts_word a.
Proof. by destruct a. Qed.

(** Splitting at a whitespace character distributes over the two halves. *)
Lemma split_app_space a c b :
  is_space c = true -> split (a ++ String c b) = split a ++ split b.
Proof.
  intros Hc. induction a as [|c' a IH]; simpl; [by rewrite Hc|].
  destruct (is_space c') eqn:Hc'; [exact IH|]. rewrite IH.
  destruct a as [|c'' a'].
  - simpl. rewrite Hc. apply (attach_false_app c' []).
  - rewrite starts_word_app by done.
    destruct (starts_word (String c'' a')) eqn:Hs.
    + apply attach_true_app, starts_word_split, Hs.
    + apply attach_false_app.
Qed.

Lemma split_app_sep a b : split (a ++ " " ++ b) = split a ++ split b.
Proof. apply split_app_space, space_is_space. Qed.

Lemma split_token w : no_space w = true -> split w = token_words w.
Proof.
  induction w as [|c r IH]; simpl; [done|].
  destruct (is_space c); simpl; [done|]. intros Hr. rewrite IH by done.
  destruct r as [|c' r']; simpl in *; [done|].
  destruct (is_space c'); done.
Qed.

Lemma split_lstrip s : split (lstrip s) = split s.
Proof.
  induction s as [|c r IH]; simpl; [done|].
  destruct (is_space c) eqn:Hc; [exact IH|]. simpl. by rewrite Hc.
Qed.

(** [rstrip] keeps the first character, or removes everything. *)
Lemma rstrip_cases c r :
  rstrip (String c r) = EmptyString /\ is_space c = true /\ rstrip r = EmptyString \/
  exists r', rstrip (String c r) = String c r'.
Proof.
  simpl. destruct (rstrip r) eqn:E.
  - destruct (is_space c) eqn:Hc; [left; auto | right; eauto].
  - right. eauto.
Qed.

Lemma starts_word_rstrip s :
  rstrip s <> EmptyString -> starts_word (rstrip s) = starts_word s.
Proof.
  destruct s as [|c r]; [done|]. intros Hne.
  destruct (rstrip_cases c r) as [(?&?&?)|[r' ->]]; [done | reflexivity].
Qed.

Lemma rstrip_empty_starts s : rstrip s = EmptyString -> starts_word s = false.
Proof.
  destruct s as [|c r]; [done|]. simpl.
  destruct (rstrip r); destruct (is_space c); done.
Qed.

Lemma split_rstrip s : split (rstrip s) = split s.
Proof.
  induction s as [|c r IH]; [done|]. cbn [rstrip split].
  destruct (rstrip r) as [|c' r'] eqn:E.
  - assert (Hr : split r = []) by (rewrite <- IH; reflexivity).
    rewrite Hr, rstrip_empty_starts by done.
    destruct (is_space c) eqn:Hc; simpl; rewrite ?Hc; reflexivity.
  - rewrite <- E in *. cbn [split]. rewrite IH.
    rewrite starts_word_rstrip by (rewrite E; done). reflexivity.
Qed.

(** Stripping never changes the tokens. *)
Lemma split_strip s : split (strip s) = split s.
Proof. unfold strip. by rewrite split_rstrip, split_lstrip. Qed.

Lemma lstrip_no_space w : no_space w = true -> lstrip w = w.
Proof. destruct w as [|c r]; simpl; [done|]. by destruct (is_space c). Qed.

Lemma rstrip_no_space w : no_space w = true -> rstrip w = w.
Proof.
  induction w as [|c r IH]; simpl; [done|].
  destruct (is_space c); simpl; [done|]. intros Hr. rewrite IH by done.
  by destruct r.
Qed.

(** A token is its own strip. *)
Lemma strip_no_space w : no_space w = true -> strip w = w.
Proof. intros H. unfold strip. by rewrite lstrip_no_space, rstrip_no_space. Qed.

End PyStr.

#[export] Hint Rewrite PyStr.split_app_sep PyStr.split_strip : py_rw.
