(* ===== verification/PyRandom.v ===== *)
(** * Python's [random] module, as an interface

    The game draws with [random.choice], [random.randint] and
    [random.random]. The generator (a Mersenne Twister) is not modelled:
    the class [RandomSource] states only what CPython guarantees of its
    primitive draws, [_randbelow(n)] (a value in [0, n) for [n > 0]) and the
    53-bit integer [k] behind [random()] (which returns [k * 2^-53], with
    [0 <= k < 2^53]). Every theorem of the development that involves
    randomness is proved for an arbitrary [RandomSource], so it holds for
    every outcome of the draws. The instance [scripted] replays a list of
    numbers, like a test that mocks the generator; the witnesses use it. *)
From S2P Require Import Prelude.

Class RandomSource (G : Type) := {
  randbelow : nat -> G -> nat * G;
  random53 : G -> Z * G;
  randbelow_lt : forall n g, 0 < n -> (randbelow n g).1 < n;
  random53_range : forall g, (0 <= (random53 g).1 < 2 ^ 53)%Z
}.

Section Random.
Context `{RS : RandomSource G}.

(** [random.choice(seq)]: [IndexError] on an empty sequence, otherwise
    [seq[_randbelow(len(seq))]]. *)
Definition choice {A} (seq : list A) : st G A :=
  fun g => match seq with
           | [] => Exn IndexError g
           | _ => let (i, g') := randbelow (length seq) g in
                  match seq !! i with
                  | Some x => Ret x g'
                  | None => Exn IndexError g'
                  end
           end.

(** [random.randint(a, b)] = [randrange(a, b + 1)] = [a + _randbelow(b - a + 1)]. *)
Definition randint (a b : Z) : st G Z :=
  fun g => if (b <? a)%Z then Exn ValueError g
           else let (i, g') := randbelow (Z.to_nat (b - a + 1)) g in
                Ret (a + Z.of_nat i)%Z g'.

(** The test [random.random() > 0.5] on the draw [k]: [k * 2^-53] and
    [0.5] are exact binary64 numbers, so the comparison is [k > 2^52]. *)
Definition gt_half (k : Z) : bool := (2 ^ 52 <? k)%Z.

Definition random_gt_half : st G bool :=
  fun g => let (k, g') := random53 g in Ret (gt_half k) g'.

(** ** Lemmas *)

Lemma choice_nil {A} g : choice (A:=A) [] g = Exn IndexError g.
Proof. reflexivity. Qed.

(** A non-empty sequence never makes [choice] fail: it returns an element. *)
Lemma choice_cons {A} (seq : list A) g :
  seq <> [] -> exists x g', choice seq g = Ret x g' /\ x ∈ seq.
Proof.
  intros Hne. unfold choice. destruct seq as [|y ys]; [done|].
  pose proof (randbelow_lt (length (y :: ys)) g) as Hlt.
  destruct (randbelow (length (y :: ys)) g) as [i g'].
  simpl in Hlt. destruct (lookup_lt_is_Some_2 (y :: ys) i) as [x Hx]; [simpl; lia|].
  rewrite Hx. exists x, g'. split; [done|]. by eapply list_elem_of_lookup_2.
Qed.

Lemma choice_elem {A} (seq : list A) g x g' : choice seq g = Ret x g' -> x ∈ seq.
Proof.
  destruct seq as [|y ys]; [done|]. intros Hc.
  destruct (choice_cons (y :: ys) g) as (x' & g'' & Hc' & Hin); [done|].
  rewrite Hc in Hc'. by simplify_eq.
Qed.

Lemma choice_outcome {A} (seq : list A) g :
  (seq = [] /\ choice seq g = Exn IndexError g) \/
  (exists x g', choice seq g = Ret x g' /\ x ∈ seq).
Proof. destruct seq as [|y ys]; [by left | right; by apply choice_cons]. Qed.

Lemma total_choice {A} (seq : list A) : total (choice seq).
Proof. intros g. by destruct (choice_outcome seq g) as [[_ ->]|(x&g'&->&_)]. Qed.

(** [randint a b] returns a number of [a..b]. *)
Lemma randint_range a b g : (a <= b)%Z -> exists k g', randint a b g = Ret k g' /\ (a <= k <= b)%Z.
Proof.
  intros Hab. unfold randint. destruct (Z.ltb_spec b a); [lia|].
  pose proof (randbelow_lt (Z.to_nat (b - a + 1)) g) as Hlt.
  destruct (randbelow _ g) as [i g']. simpl in Hlt.
  exists (a + Z.of_nat i)%Z, g'. split; [done|]. lia.
Qed.

Lemma total_randint a b : total (randint a b).
Proof. intros g. unfold randint. destruct (_ <? _)%Z; [done|]. by destruct (randbelow _ g). Qed.

Lemma total_random_gt_half : total random_gt_half.
Proof. intros g. unfold random_gt_half. by destruct (random53 g). Qed.

(** The only exception of [choice] is [IndexError]; [randint a b] with
    [a <= b] and [random() > 0.5] raise nothing. *)
Lemma exn_only_choice {A} (P : PyExc -> G -> Prop) (seq : list A) :
  (forall g, P IndexError g) -> exn_only P (choice seq).
Proof.
  intros HP g e g' H.
  destruct (choice_outcome seq g) as [[_ H']|(x & g1 & H' & _)]; rewrite H' in H; by simplify_eq.
Qed.

Lemma exn_only_randint (P : PyExc -> G -> Prop) a b : (a <= b)%Z -> exn_only P (randint a b).
Proof.
  intros Hab g e g' H. destruct (randint_range a b g Hab) as (k & g1 & H' & _).
  by rewrite H' in H.
Qed.

Lemma exn_only_random_gt_half (P : PyExc -> G -> Prop) : exn_only P random_gt_half.
Proof. intros g e g' H. unfold random_gt_half in H. by destruct (random53 g). Qed.
End Random.

#[export] Hint Resolve total_choice total_randint total_random_gt_half : py.

(** ** Counting the outcomes of [random() > 0.5]

    [count_outcomes p n] is the number of draws [k < n] with [p k]. *)
Fixpoint count_outcomes (p : Z -> bool) (n : nat) : nat :=
  match n with
  | 0 => 0
  | S n' => count_outcomes p n' + (if p (Z.of_nat n') then 1 else 0)
  end.

Lemma count_outcomes_gt (t : Z) n : (0 <= t)%Z ->
  Z.of_nat (count_outcomes (fun k => (t <? k)%Z) n) = Z.max 0 (Z.of_nat n - t - 1).
Proof.
  intros Ht. induction n as [|n IH]; simpl; [lia|].
  destruct (Z.ltb_spec t (Z.of_nat n)); lia.
Qed.

Lemma count_outcomes_le (t : Z) n : (0 <= t)%Z ->
  Z.of_nat (count_outcomes (fun k => negb (t <? k)%Z) n) = Z.min (Z.of_nat n) (t + 1).
Proof.
  intros Ht. induction n as [|n IH]; simpl; [lia|].
  destruct (Z.ltb_spec t (Z.of_nat n)); simpl; lia.
Qed.

(** C23: the coin of line 127 is not fair: of the [2^53] equally likely
    values [k] behind [random()], [2^52 - 1] make [random() > 0.5] true
    (the word becomes a verb) and [2^52 + 1] make it false (a noun), since
    [random()] can be exactly [0.5] and never [1.0]. *)
Theorem gt_half_bias :
  Z.of_nat (count_outcomes gt_half (Z.to_nat (2 ^ 53))) = (2 ^ 52 - 1)%Z /\
  Z.of_nat (count_outcomes (fun k => negb (gt_half k)) (Z.to_nat (2 ^ 53))) = (2 ^ 52 + 1)%Z.
Proof.
  unfold gt_half. rewrite count_outcomes_gt, count_outcomes_le by lia.
  rewrite Z2Nat.id by lia. lia.
Qed.

(** ** A replayed generator, for concrete runs *)
Definition scripted_randbelow (n : nat) (g : list nat) : nat * list nat :=
  match g with [] => (0, []) | x :: g' => (x mod n, g') end.

Definition scripted_random53 (g : list nat) : Z * list nat :=
  match g with [] => (0%Z, []) | x :: g' => ((Z.of_nat x) mod 2 ^ 53, g')%Z end.

#[export] Program Instance scripted : RandomSource (list nat) := {|
  randbelow := scripted_randbelow;
  random53 := scripted_random53 |}.
Next Obligation.
  intros n [|x g] Hn; simpl; [lia|]. apply Nat.mod_upper_bound. lia.
Qed.
Next Obligation.
  intros [|x g]; simpl; [lia|]. apply Z.mod_pos_bound. lia.
Qed.
