(* ===== verification/Phonology.v ===== *)
(** * Phonology: the sound inventory and the word generator

    Models [class PhonologySystem] (src/truku_creator_game.py, lines 6-19):
    two Python sets of graphemes and a list of syllable patterns, with
    [generate_syllable] and [generate_word], and the four inventory edits
    that [level_1_phonology] performs on the sets (lines 78-87). A Python
    [set] of [str] is a [gset string]; [list(s)] is [elements s], whose
    order is unspecified in Python and fixed but arbitrary here (no theorem
    depends on it). *)
From stdpp Require Import gmap.
From S2P Require Import Prelude PyStr PyRandom.

Module Phonology.

Record PhonologySystem := mkPhonology {
  consonants : gset string;
  vowels : gset string;
  syllable_patterns : list string
}.

(** The dataclass defaults (lines 8-10). *)
Definition default_phonology : PhonologySystem := {|
  consonants := list_to_set ["p"; "t"; "k"; "b"; "g"; "m"; "n"; "s"; "h"; "l"; "r"];
  vowels := list_to_set ["i"; "u"; "e"; "o"; "a"];
  syllable_patterns := ["CV"; "CVC"; "V"; "CVV"]
|}.

(** ** Inventory edits (the set mutations of [level_1_phonology]) *)
Definition add_consonant (c : string) (ph : PhonologySystem) : PhonologySystem :=
  mkPhonology ({[c]} ∪ consonants ph) (vowels ph) (syllable_patterns ph).
Definition remove_consonant (c : string) (ph : PhonologySystem) : PhonologySystem :=
  mkPhonology (consonants ph ∖ {[c]}) (vowels ph) (syllable_patterns ph).
Definition add_vowel (v : string) (ph : PhonologySystem) : PhonologySystem :=
  mkPhonology (consonants ph) ({[v]} ∪ vowels ph) (syllable_patterns ph).
Definition remove_vowel (v : string) (ph : PhonologySystem) : PhonologySystem :=
  mkPhonology (consonants ph) (vowels ph ∖ {[v]}) (syllable_patterns ph).

(** ** Generation (lines 12-19) *)
Section Generation.
Context `{RS : RandomSource G}.
Variable ph : PhonologySystem.

(** One slot of the generator expression of line 14:
    [random.choice(list(self.consonants)) if ch == 'C'
     else random.choice(list(self.vowels))]. *)
Definition slot (ch : ascii) : st G string :=
  if ascii_dec ch "C" then choice (elements (consonants ph))
  else choice (elements (vowels ph)).

(** [''.join(slot(ch) for ch in pattern)]: the slots are drawn left to
    right, and the first failing draw raises. *)
Fixpoint gen_slots (pattern : string) : st G string :=
  match pattern with
  | EmptyString => ret EmptyString
  | String ch rest => g <- slot ch ;; r <- gen_slots rest ;; ret (g ++ r)%string
  end.

Definition generate_syllable : st G string :=
  pattern <- choice (syllable_patterns ph) ;; gen_slots pattern.

(** [''.join(self.generate_syllable() for _ in range(n))] *)
Fixpoint repeat_syllables (n : nat) : st G string :=
  match n with
  | 0 => ret EmptyString
  | S k => s <- generate_syllable ;; r <- repeat_syllables k ;; ret (s ++ r)%string
  end.

(** [generate_word(syllable_count=None)]: [None] draws [randint(1, 3)];
    [range] of a negative count is empty, hence [Z.to_nat]. *)
Definition generate_word (syllable_count : option Z) : st G string :=
  n <- match syllable_count with
       | None => randint 1 3
       | Some n => ret n
       end ;;
  repeat_syllables (Z.to_nat n).
End Generation.

(** ** Specification of a syllable

    [fills ph p w]: [w] is the pattern [p] with every ['C'] slot replaced
    by a consonant of [ph] and every other slot by a vowel of [ph]. *)
Inductive fills (ph : PhonologySystem) : string -> string -> Prop :=
| fills_nil : fills ph EmptyString EmptyString
| fills_C g p w : g ∈ consonants ph -> fills ph p w -> fills ph (String "C" p) (g ++ w)
| fills_V ch g p w : ch <> "C"%char -> g ∈ vowels ph -> fills ph p w ->
    fills ph (String ch p) (g ++ w).

Definition is_syllable (ph : PhonologySystem) (w : string) : Prop :=
  exists p, p ∈ syllable_patterns ph /\ fills ph p w.

(** A word of [n] syllables. *)
Definition is_word (ph : PhonologySystem) (n : nat) (w : string) : Prop :=
  exists ss, length ss = n /\ Forall (is_syllable ph) ss /\ w = foldr String.append EmptyString ss.

(** The inventory invariant kept by [level_1_phonology]: no grapheme is the
    empty string (line 78 and 84 add only non-empty input). *)
Definition graphemes_nonempty (ph : PhonologySystem) : Prop :=
  set_Forall (fun g => g <> EmptyString) (consonants ph) /\
  set_Forall (fun g => g <> EmptyString) (vowels ph).

(** A pattern slot other than ['C'] draws from the vowels. *)
Fixpoint has_vowel_slot (p : string) : bool :=
  match p with
  | EmptyString => false
  | String ch r => negb (Ascii.eqb ch "C") || has_vowel_slot r
  end.

(** All graphemes are single characters, as in the default inventory. *)
Definition single_letters (ph : PhonologySystem) : Prop :=
  set_Forall (fun g => String.length g = 1) (consonants ph) /\
  set_Forall (fun g => String.length g = 1) (vowels ph).

(** An inventory [generate_word] cannot draw from: a set or the pattern
    list is empty. *)
Definition inventory_empty (ph : PhonologySystem) : Prop :=
  consonants ph = ∅ \/ vowels ph = ∅ \/ syllable_patterns ph = [].

(** ** Generation lemmas *)
Section GenerationProofs.
Context `{RS : RandomSource G}.
Implicit Types (ph : PhonologySystem) (g : G).

Lemma elements_nonempty (X : gset string) : X <> ∅ -> elements X <> [].
Proof. intros HX Hnil. apply HX, leibniz_equiv, elements_empty_inv, Hnil. Qed.

Lemma slot_spec ph ch g g' x :
  slot ph ch g = Ret x g' ->
  (ch = "C"%char /\ x ∈ consonants ph) \/ (ch <> "C"%char /\ x ∈ vowels ph).
Proof.
  unfold slot. destruct (ascii_dec ch "C") as [->|Hne]; intros H;
    apply choice_elem, elem_of_elements in H; auto.
Qed.

Lemma slot_ok ph ch g :
  consonants ph <> ∅ -> vowels ph <> ∅ -> exists x g', slot ph ch g = Ret x g'.
Proof.
  intros Hc Hv. unfold slot.
  destruct (ascii_dec ch "C");
    [destruct (choice_cons (elements (consonants ph)) g) as (x & g' & H & _)
    |destruct (choice_cons (elements (vowels ph)) g) as (x & g' & H & _)];
    eauto using elements_nonempty.
Qed.

Lemma total_slot ph ch : total (slot (G:=G) ph ch).
Proof. unfold slot. destruct (ascii_dec ch "C"); apply total_choice. Qed.

Lemma total_gen_slots ph p : total (gen_slots (G:=G) ph p).
Proof. induction p; simpl; eauto using total_slot with py. Qed.

Lemma total_generate_syllable ph : total (generate_syllable (G:=G) ph).
Proof. unfold generate_syllable. eauto using total_gen_slots with py. Qed.

Lemma total_repeat_syllables ph n : total (repeat_syllables (G:=G) ph n).
Proof. induction n; simpl; eauto using total_generate_syllable with py. Qed.

Lemma total_generate_word ph c : total (generate_word (G:=G) ph c).
Proof.
  unfold generate_word. apply total_bind; [destruct c; auto with py|].
  intros; apply total_repeat_syllables.
Qed.

Lemma gen_slots_fills ph p g g' w : gen_slots ph p g = Ret w g' -> fills ph p w.
Proof.
  revert g g' w. induction p as [|ch p IH]; intros g g' w H; simpl in H.
  - ret_inv H. constructor.
  - bind_inv H. bind_inv H. ret_inv H.
    destruct (slot_spec _ _ _ _ _ Hm) as [[-> Hc]|[Hne Hv]]; constructor; eauto.
Qed.

Lemma generate_syllable_spec ph g g' w :
  generate_syllable ph g = Ret w g' -> is_syllable ph w.
Proof.
  unfold generate_syllable. intros H. bind_inv H.
  exists a. split; [by eapply choice_elem | by eapply gen_slots_fills].
Qed.

Lemma repeat_syllables_spec ph n g g' w :
  repeat_syllables ph n g = Ret w g' -> is_word ph n w.
Proof.
  revert g g' w. induction n as [|n IH]; intros g g' w H; simpl in H.
  - ret_inv H. by exists [].
  - bind_inv H. bind_inv H. ret_inv H.
    destruct (IH _ _ _ Hm0) as (ss & Hlen & Hall & ->).
    exists (a :: ss). split_and!; simpl; auto.
    constructor; [by eapply generate_syllable_spec | done].
Qed.

Lemma gen_slots_ok ph p g :
  consonants ph <> ∅ -> vowels ph <> ∅ -> exists w g', gen_slots ph p g = Ret w g'.
Proof.
  intros Hc Hv. revert g. induction p as [|ch p IH]; intros g; simpl; [eauto|].
  destruct (slot_ok ph ch g Hc Hv) as (x & g1 & Hx).
  destruct (IH g1) as (w & g2 & Hw).
  exists (x ++ w)%string, g2. by rewrite (bind_Ret _ _ _ _ _ Hx), (bind_Ret _ _ _ _ _ Hw).
Qed.

Lemma generate_syllable_ok ph g :
  consonants ph <> ∅ -> vowels ph <> ∅ -> syllable_patterns ph <> [] ->
  exists w g', generate_syllable ph g = Ret w g'.
Proof.
  intros Hc Hv Hp. unfold generate_syllable.
  destruct (choice_cons _ g Hp) as (p & g1 & Hp1 & _).
  rewrite (bind_Ret _ _ _ _ _ Hp1). by apply gen_slots_ok.
Qed.

Lemma repeat_syllables_ok ph n g :
  consonants ph <> ∅ -> vowels ph <> ∅ -> syllable_patterns ph <> [] ->
  exists w g', repeat_syllables ph n g = Ret w g'.
Proof.
  intros Hc Hv Hp. revert g. induction n as [|n IH]; intros g; simpl; [eauto|].
  destruct (generate_syllable_ok ph g Hc Hv Hp) as (x & g1 & Hx).
  destruct (IH g1) as (w & g2 & Hw).
  exists (x ++ w)%string, g2. by rewrite (bind_Ret _ _ _ _ _ Hx), (bind_Ret _ _ _ _ _ Hw).
Qed.

Lemma gen_slots_no_vowels ph p g :
  vowels ph = ∅ -> has_vowel_slot p = true -> exists g', gen_slots ph p g = Exn IndexError g'.
Proof.
  intros Hv. revert g. induction p as [|ch p IH]; intros g; simpl; [done|].
  unfold slot. destruct (ascii_dec ch "C") as [->|Hne].
  - simpl. intros Hp.
    destruct (choice_outcome (elements (consonants ph)) g) as [[_ Hx]|(x & g1 & Hx & _)].
    + exists g. by rewrite (bind_Exn _ _ _ _ _ Hx).
    + destruct (IH g1 Hp) as (g2 & H2). exists g2.
      rewrite (bind_Ret _ _ _ _ _ Hx). by rewrite (bind_Exn _ _ _ _ _ H2).
  - intros _. rewrite Hv, elements_empty. by exists g.
Qed.

Lemma generate_syllable_no_vowels ph g :
  vowels ph = ∅ -> Forall (fun p => has_vowel_slot p = true) (syllable_patterns ph) ->
  exists g', generate_syllable ph g = Exn IndexError g'.
Proof.
  intros Hv Hall. unfold generate_syllable.
  destruct (choice_outcome (syllable_patterns ph) g) as [[_ Hx]|(p & g1 & Hx & Hin)].
  - exists g. by rewrite (bind_Exn _ _ _ _ _ Hx).
  - rewrite (bind_Ret _ _ _ _ _ Hx). apply gen_slots_no_vowels; [done|].
    apply (proj1 (Forall_forall _ _) Hall); first [exact Hin | by apply list_elem_of_In].
Qed.

Lemma fills_single_length ph p w :
  single_letters ph -> fills ph p w -> String.length w = String.length p.
Proof.
  intros [Hc Hv]. induction 1; simpl; rewrite ?string_length_app; [done| |];
    [rewrite (Hc g) | rewrite (Hv g)]; auto.
Qed.
End GenerationProofs.

(** A list of strings whose lengths lie in [lo..hi] concatenates to a
    string of length between [n * lo] and [n * hi]. *)
Lemma concat_length_bounds (lo hi : nat) (ss : list string) :
  Forall (fun s => lo <= String.length s <= hi) ss ->
  length ss * lo <= String.length (foldr String.append EmptyString ss) <= length ss * hi.
Proof.
  induction 1; simpl; [lia|]. rewrite string_length_app. lia.
Qed.

Lemma default_single_letters : single_letters default_phonology.
Proof. split; apply set_Forall_list_to_set; repeat constructor. Qed.

Lemma default_syllable_length w :
  is_syllable default_phonology w -> 1 <= String.length w <= 3.
Proof.
  intros (p & Hp & Hf). rewrite (fills_single_length _ _ _ default_single_letters Hf).
  apply list_elem_of_In in Hp. simpl in Hp. intuition subst; simpl; lia.
Qed.

Section GenerateWord.
Context `{RS : RandomSource G}.
Implicit Types (ph : PhonologySystem) (g : G).

Lemma generate_word_spec ph c g g' w :
  generate_word ph c g = Ret w g' ->
  match c with
  | None => exists n, 1 <= n <= 3 /\ is_word ph n w
  | Some k => is_word ph (Z.to_nat k) w
  end.
Proof.
  unfold generate_word. intros H. bind_inv H. destruct c as [k|].
  - ret_inv Hm. by eapply repeat_syllables_spec.
  - destruct (randint_range 1 3 g) as (k & g1 & Hk & Hr); [lia|].
    rewrite Hk in Hm. simplify_eq.
    exists (Z.to_nat a). split; [lia | by eapply repeat_syllables_spec].
Qed.

Lemma generate_word_ok ph c g :
  consonants ph <> ∅ -> vowels ph <> ∅ -> syllable_patterns ph <> [] ->
  exists w g', generate_word ph c g = Ret w g'.
Proof.
  intros Hc Hv Hp. unfold generate_word.
  assert (exists k g1, (match c with None => randint 1 3 | Some n => ret n end) g = Ret k g1)
    as (k & g1 & Hk).
  { destruct c as [n|]; [by eexists _, _|].
    destruct (randint_range 1 3 g) as (k & g1 & Hk & _); [lia | eauto]. }
  rewrite (bind_Ret _ _ _ _ _ Hk). by apply repeat_syllables_ok.
Qed.

(** C5: [generate_word] is totally correct: on an inventory whose two
    sets and pattern list are non-empty it never raises, and it returns
    the concatenation of [n] syllables, each a pattern of the inventory
    filled slot by slot from the matching set, where [n] is the requested
    count, or a count of 1 to 3 when none is requested. *)
Theorem generate_word_correct ph c g :
  consonants ph <> ∅ -> vowels ph <> ∅ -> syllable_patterns ph <> [] ->
  exists w g', generate_word ph c g = Ret w g' /\
    match c with
    | None => exists n, 1 <= n <= 3 /\ is_word ph n w
    | Some k => is_word ph (Z.to_nat k) w
    end.
Proof.
  intros Hc Hv Hp. destruct (generate_word_ok ph c g Hc Hv Hp) as (w & g' & H).
  exists w, g'. split; [done | by eapply generate_word_spec].
Qed.

(** The latent defect of line 14: when the vowel set is empty and every
    pattern has a vowel slot (as the default patterns do),
    [generate_word()] always raises [IndexError]. *)
Lemma generate_word_no_vowels ph g :
  vowels ph = ∅ -> Forall (fun p => has_vowel_slot p = true) (syllable_patterns ph) ->
  exists g', generate_word ph None g = Exn IndexError g'.
Proof.
  intros Hv Hall. unfold generate_word.
  destruct (randint_range 1 3 g) as (k & g1 & Hk & Hr); [lia|].
  rewrite (bind_Ret _ _ _ _ _ Hk).
  destruct (Z.to_nat k) as [|n] eqn:En; [lia|]. simpl.
  destruct (generate_syllable_no_vowels ph g1 Hv Hall) as (g2 & H2).
  exists g2. by rewrite (bind_Exn _ _ _ _ _ H2).
Qed.

(** Whatever the inventory, [generate_word] raises nothing but
    [IndexError]. *)
Lemma generate_word_exn ph c : exn_only (fun e (_ : G) => e = IndexError) (generate_word ph c).
Proof.
  assert (forall p, exn_only (fun e (_ : G) => e = IndexError) (gen_slots ph p)) as Hs.
  { induction p as [|ch p IH]; simpl; [apply exn_only_ret|].
    apply exn_only_bind; [|intros; apply exn_only_bind; [done | intros; apply exn_only_ret]].
    unfold slot. destruct (ascii_dec ch "C"); by apply exn_only_choice. }
  unfold generate_word. apply exn_only_bind.
  - destruct c; [apply exn_only_ret | apply exn_only_randint; lia].
  - intros n. induction (Z.to_nat n) as [|k IH]; simpl; [apply exn_only_ret|].
    apply exn_only_bind; [|intros; apply exn_only_bind; [done | intros; apply exn_only_ret]].
    unfold generate_syllable. apply exn_only_bind; [by apply exn_only_choice | apply Hs].
Qed.

(** [generate_word] raises only [IndexError], and only on an inventory it
    cannot draw from. *)
Lemma generate_word_raises ph c g e g' :
  generate_word ph c g = Exn e g' -> e = IndexError /\ inventory_empty ph.
Proof.
  intros H. split; [exact (generate_word_exn ph c g e g' H)|]. unfold inventory_empty.
  destruct (decide (consonants ph = ∅)) as [|Hc]; [by left|].
  destruct (decide (vowels ph = ∅)) as [|Hv]; [by right; left|].
  destruct (decide (syllable_patterns ph = [])) as [|Hp]; [by right; right|].
  destruct (generate_word_ok ph c g Hc Hv Hp) as (w & g'' & H'). congruence.
Qed.

(** C24: with the default inventory (single-letter graphemes, patterns of
    1 to 3 slots) a word of [generate_word()] has 1 to 9 characters. *)
Theorem default_word_length g g' w :
  generate_word default_phonology None g = Ret w g' -> 1 <= String.length w <= 9.
Proof.
  intros H. destruct (generate_word_spec _ _ _ _ _ H) as (n & Hn & ss & Hlen & Hall & ->).
  assert (Forall (fun s => 1 <= String.length s <= 3) ss) as Hb.
  { eapply Forall_impl; [exact Hall | exact default_syllable_length]. }
  pose proof (concat_length_bounds 1 3 ss Hb). lia.
Qed.
End GenerateWord.

Lemma generate_word_correct_witness :
  exists w g', generate_word default_phonology None [2; 1; 3; 0; 4; 1; 2; 3; 3; 1; 0] = Ret w g' /\
    exists n, 1 <= n <= 3 /\ is_word default_phonology n w.
Proof.
  apply generate_word_correct; [vm_compute; discriminate | vm_compute; discriminate | discriminate].
Defined.

Lemma default_word_length_witness : 1 <= String.length "monsimgog" <= 9.
Proof.
  apply (default_word_length [2; 1; 3; 0; 4; 1; 2; 3; 3; 1; 0] []).
  vm_compute. reflexivity.
Defined.

End Phonology.
