(* ===== verification/Morphology.v ===== *)
(** * Morphology: the affixation rule table

    Models [class MorphologyRule] and [class MorphologySystem]
    (src/truku_creator_game.py, lines 21-38) and the default seeding that
    [level_2_morphology] performs when it leaves its menu (lines 120-123).
    The rule table is a Python list, kept as a Rocq list in insertion
    order; [rule_type] is the free text the player typed, not an enum.
    Strings are Rocq strings of bytes; the Chinese glosses of the source
    are written as they are, in UTF-8.

    The abstract specification [lookup_affix] says which affix a rule name
    denotes: the one of the first rule with that name whose type is
    ["prefix"] or ["suffix"]. [apply_morphology_spec] proves that the loop
    of [apply_morphology] implements it. *)
From S2P Require Import Prelude.

Module Morphology.

Record MorphologyRule := mkRule {
  name : string;
  rule_type : string;
  marker : string;
  meaning : string
}.

Record MorphologySystem := mkMorphology { rules : list MorphologyRule }.

(** [MorphologySystem()]: no rules. *)
Definition empty_morphology : MorphologySystem := mkMorphology [].

(** [add_rule]: [self.rules.append(MorphologyRule(...))] *)
Definition add_rule (n t m d : string) (ms : MorphologySystem) : MorphologySystem :=
  mkMorphology (rules ms ++ [mkRule n t m d]).

(** The loop of [apply_morphology]: a rule whose name matches but whose type
    is neither ["prefix"] nor ["suffix"] falls through to the next rule. *)
Fixpoint apply_rules (rs : list MorphologyRule) (base_word rule_name : string) : string :=
  match rs with
  | [] => base_word
  | r :: rs' =>
      if (name r =? rule_name)%string then
        if (rule_type r =? "prefix")%string then (marker r ++ base_word)%string
        else if (rule_type r =? "suffix")%string then (base_word ++ marker r)%string
        else apply_rules rs' base_word rule_name
      else apply_rules rs' base_word rule_name
  end.

Definition apply_morphology (ms : MorphologySystem) (base_word rule_name : string) : string :=
  apply_rules (rules ms) base_word rule_name.

(** [if not self.morphology.rules:] add the three default rules. *)
Definition seed_default_rules (ms : MorphologySystem) : MorphologySystem :=
  match rules ms with
  | [] => add_rule "nominal" "suffix" "-an" "名詞化"
            (add_rule "past" "suffix" "-in" "完成體"
              (add_rule "negative" "prefix" "ma-" "否定" ms))
  | _ => ms
  end.

(** ** Abstract specification *)
Inductive affix := Prefix (m : string) | Suffix (m : string).

(** The affix a rule denotes, if its type is one of the two known ones. *)
Definition rule_affix (r : MorphologyRule) : option affix :=
  if (rule_type r =? "prefix")%string then Some (Prefix (marker r))
  else if (rule_type r =? "suffix")%string then Some (Suffix (marker r))
  else None.

(** The affix of rule [r] if it is named [n]. *)
Definition rule_match (n : string) (r : MorphologyRule) : option affix :=
  if (name r =? n)%string then rule_affix r else None.

(** The affix of the first rule named [n] that has a known type. *)
Definition lookup_affix (rs : list MorphologyRule) (n : string) : option affix :=
  head (omap (rule_match n) rs).

Definition affix_apply (a : option affix) (w : string) : string :=
  match a with
  | Some (Prefix m) => (m ++ w)%string
  | Some (Suffix m) => (w ++ m)%string
  | None => w
  end.

(** ** Lemmas *)

Lemma lookup_affix_cons r rs n :
  lookup_affix (r :: rs) n =
  match rule_match n r with
  | Some a => Some a
  | None => lookup_affix rs n
  end.
Proof. unfold lookup_affix. simpl. by destruct (rule_match n r). Qed.

Lemma lookup_affix_app rs1 rs2 n :
  lookup_affix (rs1 ++ rs2) n =
  match lookup_affix rs1 n with Some a => Some a | None => lookup_affix rs2 n end.
Proof.
  induction rs1 as [|r rs1 IH]; [done|]. simpl app. rewrite !lookup_affix_cons, IH.
  by destruct (rule_match n r).
Qed.

Lemma lookup_affix_single r k : lookup_affix [r] k = rule_match k r.
Proof. rewrite lookup_affix_cons. by destruct (rule_match k r). Qed.

Lemma apply_rules_spec rs w n : apply_rules rs w n = affix_apply (lookup_affix rs n) w.
Proof.
  induction rs as [|r rs IH]; [done|]. simpl. rewrite lookup_affix_cons, IH.
  unfold rule_match, rule_affix.
  destruct (name r =? n)%string, (rule_type r =? "prefix")%string,
    (rule_type r =? "suffix")%string; reflexivity.
Qed.

Lemma lookup_affix_add_rule ms n t m d k :
  lookup_affix (rules (add_rule n t m d ms)) k =
  match lookup_affix (rules ms) k with
  | Some a => Some a
  | None => rule_match k (mkRule n t m d)
  end.
Proof. unfold add_rule. simpl. by rewrite lookup_affix_app, lookup_affix_single. Qed.

(** ** Properties *)

(** C4: refinement: the loop of [apply_morphology] (lines 33-38) computes
    the abstract affixation: it prefixes or suffixes the marker of the
    first rule with the requested name and a known type, and returns the
    base word unchanged when there is none. *)
Theorem apply_morphology_spec ms w n :
  apply_morphology ms w n = affix_apply (lookup_affix (rules ms) n) w.
Proof. apply apply_rules_spec. Qed.

(** C19: insert then lookup: after [add_rule n t m d] on a table where no
    rule named [n] has a known type, applying [n] prefixes [m] when [t] is
    ["prefix"], suffixes it when [t] is ["suffix"], and does nothing
    otherwise. *)
Theorem add_rule_then_apply ms n t m d w :
  lookup_affix (rules ms) n = None ->
  apply_morphology (add_rule n t m d ms) w n =
  if (t =? "prefix")%string then (m ++ w)%string
  else if (t =? "suffix")%string then (w ++ m)%string
  else w.
Proof.
  intros Hn. rewrite apply_morphology_spec, lookup_affix_add_rule, Hn.
  unfold rule_match, rule_affix. simpl. rewrite String.eqb_refl.
  by destruct (t =? "prefix")%string, (t =? "suffix")%string.
Qed.

(** C20: first match wins: appending a rule never changes the result for a
    name that the table already resolves, whatever the new rule's name
    (a later rule with the same name is shadowed, not an overwrite). *)
Theorem add_rule_shadowed ms n t m d w k a :
  lookup_affix (rules ms) k = Some a ->
  apply_morphology (add_rule n t m d ms) w k = apply_morphology ms w k.
Proof.
  intros Hk. by rewrite !apply_morphology_spec, lookup_affix_add_rule, Hk.
Qed.

(** C21: the defaults are seeded only into an empty table (lines 120-123):
    a table with a rule is left as it is, and on an empty one the three
    default rules make ["past"] and ["nominal"] the suffixes ["-in"] and
    ["-an"] and ["negative"] the prefix ["ma-"]. *)
Theorem seed_default_rules_spec ms :
  (rules ms <> [] -> seed_default_rules ms = ms) /\
  (rules ms = [] -> forall w,
     apply_morphology (seed_default_rules ms) w "past" = (w ++ "-in")%string /\
     apply_morphology (seed_default_rules ms) w "nominal" = (w ++ "-an")%string /\
     apply_morphology (seed_default_rules ms) w "negative" = ("ma-" ++ w)%string).
Proof.
  unfold seed_default_rules. split.
  - by destruct (rules ms).
  - intros Hr w. unfold apply_morphology, add_rule. simpl. rewrite Hr.
    split_and!; reflexivity.
Qed.

Definition past_rule : MorphologyRule := mkRule "past" "suffix" "-in" "完成體".

Lemma add_rule_then_apply_witness :
  apply_morphology (add_rule "past" "suffix" "-in" "完成體" empty_morphology) "mita" "past" =
  if ("suffix" =? "prefix")%string then ("-in" ++ "mita")%string
  else if ("suffix" =? "suffix")%string then ("mita" ++ "-in")%string
  else "mita".
Proof. apply add_rule_then_apply. reflexivity. Defined.

Lemma add_rule_shadowed_witness :
  apply_morphology (add_rule "past" "prefix" "s-" "" (mkMorphology [past_rule])) "mita" "past" =
  apply_morphology (mkMorphology [past_rule]) "mita" "past".
Proof. eapply (add_rule_shadowed _ _ _ _ _ _ _ (Suffix "-in")). reflexivity. Defined.

End Morphology.
