(* ===== verification/Syntax.v ===== *)
(** * Syntax: word order and sentence assembly

    Models [class SyntaxSystem] (src/truku_creator_game.py, lines 40-49),
    the two settings that [level_3_syntax] changes (lines 145-148) and the
    question form it prints (line 157). The word order is kept as the
    string the code compares, so that an order outside the four known ones
    is representable; the enum [Order] and [arrange] are the abstract
    specification, and [generate_sentence_split] proves that the f-string
    plus [.strip()] of the code lays the words out in that order. *)
From S2P Require Import Prelude PyStr.

Module Syntax.

Record SyntaxSystem := mkSyntax { word_order : string; question_marker : string }.

(** Dataclass defaults (lines 42-43). *)
Definition default_syntax : SyntaxSystem := mkSyntax "VOS" "ka".

(** [f"{a} {b} {c}".strip()] *)
Definition join3 (a b c : string) : string := PyStr.strip (a ++ " " ++ b ++ " " ++ c).

(** [generate_sentence(subject, verb, obj)]: the Python default [obj=""]
    is not needed, the game always passes the object. *)
Definition generate_sentence (sy : SyntaxSystem) (subject verb obj : string) : string :=
  if (word_order sy =? "VOS")%string then join3 verb obj subject
  else if (word_order sy =? "SVO")%string then join3 subject verb obj
  else if (word_order sy =? "SOV")%string then join3 subject obj verb
  else if (word_order sy =? "VSO")%string then join3 verb subject obj
  else join3 subject verb obj.

(** The accepted orders of line 146, [["VOS", "SVO", "SOV", "VSO"]]. *)
Definition known_orders : list string := ["VOS"; "SVO"; "SOV"; "VSO"].

(** Line 146: [if o in [...]: self.syntax.word_order = o]. *)
Definition set_word_order (o : string) (sy : SyntaxSystem) : SyntaxSystem :=
  if bool_decide (o ∈ known_orders) then mkSyntax o (question_marker sy) else sy.

(** Line 148: [if q: self.syntax.question_marker = q]. *)
Definition set_question_marker (q : string) (sy : SyntaxSystem) : SyntaxSystem :=
  match q with
  | EmptyString => sy
  | _ => mkSyntax (word_order sy) q
  end.

(** Line 157: the question printed after a sentence,
    [f"{sentence} {self.syntax.question_marker}"]. *)
Definition question_form (sy : SyntaxSystem) (sentence : string) : string :=
  (sentence ++ " " ++ question_marker sy)%string.

(** ** Abstract specification *)
Inductive Order := VOS | SVO | SOV | VSO.

Definition parse_order (s : string) : option Order :=
  if (s =? "VOS")%string then Some VOS
  else if (s =? "SVO")%string then Some SVO
  else if (s =? "SOV")%string then Some SOV
  else if (s =? "VSO")%string then Some VSO
  else None.

(** The order the sentence generator follows: an unknown order falls back
    to SVO. *)
Definition effective_order (sy : SyntaxSystem) : Order :=
  default SVO (parse_order (word_order sy)).

(** The slots of subject, verb and object in the sentence, in order. *)
Definition arrange {A} (o : Order) (s v ob : A) : list A :=
  match o with
  | VOS => [v; ob; s]
  | SVO => [s; v; ob]
  | SOV => [s; ob; v]
  | VSO => [v; s; ob]
  end.

(** A syntax setting whose word order is one of the four known ones. *)
Definition valid_order (sy : SyntaxSystem) : Prop := word_order sy ∈ known_orders.

(** ** Lemmas *)

Lemma join3_split a b c :
  PyStr.split (join3 a b c) = PyStr.split a ++ PyStr.split b ++ PyStr.split c.
Proof. unfold join3. by rewrite PyStr.split_strip, !PyStr.split_app_sep. Qed.

(** The chain of [if]s of [generate_sentence] follows [effective_order]. *)
Lemma generate_sentence_arrange sy s v o :
  generate_sentence sy s v o =
  match arrange (effective_order sy) s v o with
  | [x; y; z] => join3 x y z
  | _ => EmptyString
  end.
Proof.
  unfold generate_sentence, effective_order, parse_order.
  destruct (word_order sy =? "VOS")%string, (word_order sy =? "SVO")%string,
    (word_order sy =? "SOV")%string, (word_order sy =? "VSO")%string; reflexivity.
Qed.

Lemma rstrip_app_nonempty x y :
  PyStr.rstrip y <> EmptyString -> PyStr.rstrip (x ++ y) = (x ++ PyStr.rstrip y)%string.
Proof.
  intros Hy. induction x as [|ch x IH]; [done|]. simpl. rewrite IH.
  destruct (x ++ PyStr.rstrip y)%string eqn:E; [|done].
  by destruct x, (PyStr.rstrip y).
Qed.

(** [.strip()] leaves a string alone that starts and ends with a
    non-empty token. *)
Lemma join3_tokens a b c :
  PyStr.no_space a = true -> PyStr.no_space c = true -> a <> EmptyString -> c <> EmptyString ->
  join3 a b c = (a ++ " " ++ b ++ " " ++ c)%string.
Proof.
  intros Ha Hc Ha0 Hc0. unfold join3, PyStr.strip.
  assert (PyStr.rstrip c = c) as Hrc by (by apply PyStr.rstrip_no_space).
  rewrite PyStr.lstrip_starts_word.
  - rewrite string_app_assoc, string_app_assoc, string_app_assoc.
    rewrite rstrip_app_nonempty, Hrc; [by rewrite <- !string_app_assoc | by rewrite Hrc].
  - destruct a as [|ch r]; [done|]. simpl in *. by destruct (PyStr.is_space ch).
Qed.

(** ** Properties *)

(** C3: round trip of [generate_sentence] (lines 44-49) through
    [str.split()]: for every word order the words of the sentence are the
    words of the subject, verb and object laid out as the order says
    (verb-object-subject for ["VOS"], and so on), an unknown order being
    laid out as SVO; empty arguments contribute no word and the [.strip()]
    removes no word. *)
Theorem generate_sentence_split sy s v o :
  PyStr.split (generate_sentence sy s v o) =
  mjoin (map PyStr.split (arrange (effective_order sy) s v o)).
Proof.
  rewrite generate_sentence_arrange.
  destruct (effective_order sy); simpl; by rewrite join3_split, app_nil_r.
Qed.

(** C22: on three non-empty words without whitespace the sentence is
    exactly the three words in the order's layout, separated by single
    spaces. *)
Theorem generate_sentence_words sy s v o :
  PyStr.no_space s = true -> PyStr.no_space v = true -> PyStr.no_space o = true ->
  s <> EmptyString -> v <> EmptyString -> o <> EmptyString ->
  generate_sentence sy s v o = String.concat " " (arrange (effective_order sy) s v o).
Proof.
  intros Hs Hv Ho Hs0 Hv0 Ho0. rewrite generate_sentence_arrange.
  destruct (effective_order sy); simpl; apply join3_tokens; done.
Qed.

Lemma generate_sentence_words_witness :
  generate_sentence default_syntax "laqi" "mita" "bubu" =
  String.concat " " (arrange (effective_order default_syntax) "laqi" "mita" "bubu").
Proof. apply generate_sentence_words; done. Defined.

End Syntax.
