(* ===== verification/Vocab.v ===== *)
(** * Vocabulary: Python's [defaultdict(list)]

    [LanguageCreatorGame.vocab] (src/truku_creator_game.py, line 56) is a
    [defaultdict(list)] keyed by ["unknown"], ["verb"] and ["noun"]. It is
    a [gmap string (list string)]. Evaluating [self.vocab[k]] inserts [k]
    with [[]] when it is missing: [dd_get] returns the list and the updated
    map. No output of the program depends on which keys are present, only
    on the lists the keys denote; [dd_equiv] is that equivalence, coarser
    than equality, and the operations are [Proper] for it, so that the key
    insertions can be rewritten away. *)
From stdpp Require Import gmap.
From S2P Require Import Prelude.

Module Vocab.

Abbreviation vocab := (gmap string (list string)).

(** The list a key denotes: [m[k]] without the insertion. *)
Definition dd_lookup (m : vocab) (k : string) : list string := default [] (m !! k).

(** [self.vocab[k]] *)
Definition dd_get (k : string) (m : vocab) : list string * vocab :=
  match m !! k with
  | Some l => (l, m)
  | None => ([], <[k := []]> m)
  end.

(** [self.vocab[k].append(w)] *)
Definition dd_append (k w : string) (m : vocab) : vocab :=
  let (l, m') := dd_get k m in <[k := l ++ [w]]> m'.

(** [self.vocab[k].clear()] *)
Definition dd_clear (k : string) (m : vocab) : vocab :=
  let (_, m') := dd_get k m in <[k := []]> m'.

Definition dd_equiv (m1 m2 : vocab) : Prop := forall k, dd_lookup m1 k = dd_lookup m2 k.

#[export] Instance dd_equiv_equivalence : Equivalence dd_equiv.
Proof.
  split.
  - by intros m k.
  - intros m1 m2 H k. by rewrite H.
  - intros m1 m2 m3 H1 H2 k. by rewrite H1, H2.
Qed.

#[export] Instance dd_lookup_proper : Proper (dd_equiv ==> eq ==> eq) dd_lookup.
Proof. intros m1 m2 H k ? <-. apply H. Qed.

Lemma dd_get_fst k m : (dd_get k m).1 = dd_lookup m k.
Proof. unfold dd_get, dd_lookup. by destruct (m !! k). Qed.

(** Reading a key has no observable effect. *)
Lemma dd_get_snd k m : dd_equiv (dd_get k m).2 m.
Proof.
  intros k'. unfold dd_get, dd_lookup. destruct (m !! k) eqn:E; [done|]. simpl.
  destruct (decide (k = k')) as [<-|Hne].
  - by rewrite lookup_insert_eq, E.
  - by rewrite lookup_insert_ne.
Qed.

Lemma dd_lookup_insert_eq m k l : dd_lookup (<[k := l]> m) k = l.
Proof. unfold dd_lookup. by rewrite lookup_insert_eq. Qed.

Lemma dd_lookup_insert_ne m k k' l : k <> k' -> dd_lookup (<[k := l]> m) k' = dd_lookup m k'.
Proof. intros Hne. unfold dd_lookup. by rewrite lookup_insert_ne. Qed.

Lemma dd_lookup_append m k k' w :
  dd_lookup (dd_append k w m) k' = if decide (k = k') then dd_lookup m k ++ [w] else dd_lookup m k'.
Proof.
  unfold dd_append. pose proof (dd_get_fst k m). pose proof (dd_get_snd k m).
  destruct (dd_get k m) as [l m']; simpl in *. subst l.
  case_decide as Hk; [subst; apply dd_lookup_insert_eq|].
  rewrite dd_lookup_insert_ne by done. auto.
Qed.

Lemma dd_lookup_clear m k k' :
  dd_lookup (dd_clear k m) k' = if decide (k = k') then [] else dd_lookup m k'.
Proof.
  unfold dd_clear. pose proof (dd_get_snd k m).
  destruct (dd_get k m) as [l m']; simpl in *.
  case_decide as Hk; [subst; apply dd_lookup_insert_eq|].
  rewrite dd_lookup_insert_ne by done. auto.
Qed.

#[export] Instance dd_append_proper : Proper (eq ==> eq ==> dd_equiv ==> dd_equiv) dd_append.
Proof.
  intros k ? <- w ? <- m1 m2 H k'. rewrite !dd_lookup_append.
  case_decide; [by rewrite (H k) | apply H].
Qed.

#[export] Instance dd_clear_proper : Proper (eq ==> dd_equiv ==> dd_equiv) dd_clear.
Proof. intros k ? <- m1 m2 H k'. rewrite !dd_lookup_clear. case_decide; [done | apply H]. Qed.

(** ** Appending and clearing as dictionary updates

    [dd_append] and [dd_clear] are the plain dictionary updates
    [d[k] = d.get(k, []) + [w]] and [d[k] = []]: the key the read inserts
    is overwritten at once. *)
Lemma dd_append_eq k w m : dd_append k w m = <[k := dd_lookup m k ++ [w]]> m.
Proof. unfold dd_append, dd_get, dd_lookup. destruct (m !! k); simpl; [done|]. apply insert_insert_eq. Qed.

Lemma dd_clear_eq k m : dd_clear k m = <[k := []]> m.
Proof. unfold dd_clear, dd_get. destruct (m !! k); simpl; [done|]. apply insert_insert_eq. Qed.

End Vocab.

#[export] Hint Rewrite Vocab.dd_lookup_append Vocab.dd_lookup_clear Vocab.dd_get_fst : py_rw.
