(* ===== verification/Game.v ===== *)
(** * The game: [class LanguageCreatorGame]

    Models src/truku_creator_game.py, lines 51-182: the four stages, the
    showcase and [run_game]. The state of the program is a [World]: the
    game object's four fields ([Game]), the lines still to be read from
    standard input, the output printed so far, and the state of the random
    source. Each [print] is one [Out] event whose exact text is [render];
    each [input(prompt)] writes the prompt as an [OPrompt] event and then
    consumes one line or raises [EOFError]. The [while True] menus are
    [while_true], a loop whose bound is one more than the number of input
    lines left: every iteration reads a line, so the bound is never reached
    ([GameProps.run_game_total]). *)
From stdpp Require Import gmap sorting.
From Stdlib Require Import DecimalString.
From S2P Require Import Prelude PyStr PyRandom Phonology Morphology Syntax Vocab.
Import Phonology Morphology Syntax Vocab.

Module Game.

Record Game := mkGame {
  phonology : PhonologySystem;
  morphology : MorphologySystem;
  syntax : SyntaxSystem;
  vocab : gmap string (list string)
}.

(** [__init__] (lines 52-56). *)
Definition init_game : Game := mkGame default_phonology empty_morphology default_syntax ∅.

Definition set_phonology (ph : PhonologySystem) (gm : Game) : Game :=
  mkGame ph (morphology gm) (syntax gm) (vocab gm).
Definition set_morphology (ms : MorphologySystem) (gm : Game) : Game :=
  mkGame (phonology gm) ms (syntax gm) (vocab gm).
Definition set_syntax (sy : SyntaxSystem) (gm : Game) : Game :=
  mkGame (phonology gm) (morphology gm) sy (vocab gm).
Definition set_vocab (m : gmap string (list string)) (gm : Game) : Game :=
  mkGame (phonology gm) (morphology gm) (syntax gm) m.

(** ** Printed output *)
Inductive Out :=
| OLine (s : string)                          (* print of a constant line *)
| OPrompt (p : string)                        (* the prompt of input(p) *)
| OInventory (label : string) (gs : gset string)   (* lines 69-70 *)
| OAddedConsonant (c : string)                (* line 78 *)
| ORemovedConsonant (c : string)              (* line 81 *)
| OAddedVowel (v : string)                    (* line 84 *)
| ORemovedVowel (v : string)                  (* line 87 *)
| OWord (i : nat) (w : string)                (* line 94 *)
| ORuleAdded (t m d : string)                 (* line 113 *)
| ORule (r : MorphologyRule)                  (* line 118 *)
| OPast (v v' : string)                       (* line 133 *)
| ONominal (n n' : string)                    (* line 136 *)
| OWordOrder (o : string)                     (* line 142 *)
| OQuestionMarker (q : string)                (* line 143 *)
| OSentence (i : nat) (s : string)            (* line 156 *)
| OQuestion (q : string)                      (* line 157 *)
| OSample (i : nat) (s : string).             (* line 172 *)

Definition NL : string := String "010"%char EmptyString.

Fixpoint str_repeat (s : string) (n : nat) : string :=
  match n with 0 => EmptyString | S k => (s ++ str_repeat s k)%string end.

Definition str_of_nat (n : nat) : string := NilEmpty.string_of_uint (Nat.to_uint n).

(** [', '.join(sorted(gs))]: Python orders [str] by code point, which is
    the byte order of UTF-8, the order of [String.le]. *)
Definition join_sorted (gs : gset string) : string :=
  String.concat ", " (merge_sort String.le (elements gs)).

(** The exact text each event writes to standard output. *)
Definition render (o : Out) : string :=
  match o with
  | OLine s => s ++ NL
  | OPrompt p => p
  | OInventory label gs => label ++ " " ++ join_sorted gs ++ NL
  | OAddedConsonant c => "✅ 已加入子音 " ++ c ++ NL
  | ORemovedConsonant c => "✅ 已刪除子音 " ++ c ++ NL
  | OAddedVowel v => "✅ 已加入母音 " ++ v ++ NL
  | ORemovedVowel v => "✅ 已刪除母音 " ++ v ++ NL
  | OWord i w => str_of_nat i ++ ". " ++ w ++ NL
  | ORuleAdded t m d => "✅ 已新增 " ++ t ++ " " ++ m ++ " (" ++ d ++ ")" ++ NL
  | ORule r => " - " ++ name r ++ ": " ++ rule_type r ++ " '" ++ marker r ++ "' ("
                ++ meaning r ++ ")" ++ NL
  | OPast v v' => "動詞完成體：" ++ v ++ " → " ++ v' ++ NL
  | ONominal n n' => "名詞名詞化：" ++ n ++ " → " ++ n' ++ NL
  | OWordOrder o => "目前預設語序：" ++ o ++ " (太魯閣語傾向 VOS)" ++ NL
  | OQuestionMarker q => "疑問標記：" ++ q ++ NL
  | OSentence i s => str_of_nat i ++ ". " ++ s ++ NL
  | OQuestion q => "   疑問句：" ++ q ++ NL
  | OSample i s => str_of_nat i ++ ". " ++ s ++ NL
  end%string.

(** ** The world and its primitive operations *)
Record World (G : Type) := mkWorld {
  game : Game;
  stdin : list string;
  stdout : list Out;
  rng : G
}.
Arguments mkWorld {G}.
Arguments game {G}.
Arguments stdin {G}.
Arguments stdout {G}.
Arguments rng {G}.

Section Primitives.
Context {G : Type}.

Definition set_game (gm : Game) (w : World G) : World G :=
  mkWorld gm (stdin w) (stdout w) (rng w).
Definition set_rng (g : G) (w : World G) : World G :=
  mkWorld (game w) (stdin w) (stdout w) g.

(** [print(...)] *)
Definition print (o : Out) : st (World G) unit :=
  modify (fun w => mkWorld (game w) (stdin w) (stdout w ++ [o]) (rng w)).

(** [input(prompt)]: the prompt is written, then a line is read. *)
Definition read_line : st (World G) string :=
  fun w => match stdin w with
           | [] => Exn EOFError w
           | l :: rest => Ret l (mkWorld (game w) rest (stdout w) (rng w))
           end.

Definition input (prompt : string) : st (World G) string :=
  print (OPrompt prompt) ;; read_line.

(** [input(prompt).strip()] *)
Definition input_strip (prompt : string) : st (World G) string :=
  l <- input prompt ;; ret (PyStr.strip l).

(** A draw of the [random] module. *)
Definition rand {A} (m : st G A) : st (World G) A := lift rng set_rng m.

Definition update_game (f : Game -> Game) : st (World G) unit :=
  modify (fun w => set_game (f (game w)) w).

Definition gets_game {A} (f : Game -> A) : st (World G) A := gets (fun w => f (game w)).

(** [self.vocab[k]] as an expression. *)
Definition vget (k : string) : st (World G) (list string) :=
  fun w => let (l, m) := dd_get k (vocab (game w)) in Ret l (set_game (set_vocab m (game w)) w).

(** [self.vocab[k].append(x)] and [self.vocab[k].clear()] *)
Definition vappend (k x : string) : st (World G) unit :=
  update_game (fun gm => set_vocab (dd_append k x (vocab gm)) gm).
Definition vclear (k : string) : st (World G) unit :=
  update_game (fun gm => set_vocab (dd_clear k (vocab gm)) gm).

(** [while True:] whose body returns [false] on [break]. *)
Fixpoint loop_fuel (fuel : nat) (body : st (World G) bool) : st (World G) unit :=
  match fuel with
  | 0 => out_of_fuel
  | S f => c <- body ;; if c then loop_fuel f body else ret tt
  end.

Definition while_true (body : st (World G) bool) : st (World G) unit :=
  w <- get ;; loop_fuel (S (length (stdin w))) body.
End Primitives.

(** ** The stages *)
Section Stages.
Context `{RS : RandomSource G}.

Abbreviation GM A := (st (World G) A).

(** [display_welcome] (lines 58-64) *)
Definition display_welcome : GM unit :=
  print (OLine (str_repeat "=" 60)) ;;
  print (OLine "🌄 太魯閣語語言創造遊戲 🌄") ;;
  print (OLine (str_repeat "=" 60)) ;;
  print (OLine "你將逐步建立一個模擬太魯閣語的語言系統：") ;;
  print (OLine "1️⃣ 音韻層 → 2️⃣ 構詞層 → 3️⃣ 句法層 → 🌟 最終展示") ;;
  _ <- input (NL ++ "按 Enter 開始遊戲...")%string ;;
  ret tt.

(** One pass of the menu loop of [level_1_phonology] (lines 73-89);
    [false] is the [break] of line 89. *)
Definition phonology_step : GM bool :=
  print (OLine (NL ++ "選項：")) ;;
  print (OLine "(1) 增加子音  (2) 刪減子音  (3) 增加母音  (4) 刪減母音  (Enter) 使用預設繼續") ;;
  choice <- input_strip "請選擇操作：" ;;
  if (choice =? "1")%string then
    c <- input_strip "輸入要增加的子音：" ;;
    (if (c =? "")%string then ret tt
     else update_game (fun gm => set_phonology (add_consonant c (phonology gm)) gm) ;;
          print (OAddedConsonant c)) ;;
    ret true
  else if (choice =? "2")%string then
    c <- input_strip "輸入要刪除的子音：" ;;
    ph <- gets_game phonology ;;
    (if bool_decide (c ∈ consonants ph) then
       update_game (fun gm => set_phonology (remove_consonant c (phonology gm)) gm) ;;
       print (ORemovedConsonant c)
     else ret tt) ;;
    ret true
  else if (choice =? "3")%string then
    v <- input_strip "輸入要增加的母音：" ;;
    (if (v =? "")%string then ret tt
     else update_game (fun gm => set_phonology (add_vowel v (phonology gm)) gm) ;;
          print (OAddedVowel v)) ;;
    ret true
  else if (choice =? "4")%string then
    v <- input_strip "輸入要刪除的母音：" ;;
    ph <- gets_game phonology ;;
    (if bool_decide (v ∈ vowels ph) then
       update_game (fun gm => set_phonology (remove_vowel v (phonology gm)) gm) ;;
       print (ORemovedVowel v)
     else ret tt) ;;
    ret true
  else ret false.

(** Lines 92-95: one generated word, printed and filed as unknown. *)
Definition generate_sample_word (i : nat) : GM unit :=
  ph <- gets_game phonology ;;
  w <- rand (generate_word ph None) ;;
  print (OWord (i + 1) w) ;;
  vappend "unknown" w.

(** [level_1_phonology] (lines 66-96) *)
Definition level_1_phonology : GM unit :=
  print (OLine (NL ++ "🔤 第一關：音韻系統設定")) ;;
  print (OLine (str_repeat "-" 40)) ;;
  ph <- gets_game phonology ;;
  print (OInventory "目前預設子音：" (consonants ph)) ;;
  print (OInventory "目前預設母音：" (vowels ph)) ;;
  while_true phonology_step ;;
  print (OLine (NL ++ "🎲 用你的音韻系統生成詞語：")) ;;
  for_range 5 generate_sample_word ;;
  _ <- input (NL ++ "按 Enter 進入第二關...") ;;
  ret tt.

(** One pass of the menu loop of [level_2_morphology] (lines 103-124);
    the exit branch seeds the default rules into an empty table. *)
Definition morphology_step : GM bool :=
  print (OLine (NL ++ "選項：")) ;;
  print (OLine "(1) 新增構詞規則  (2) 列出所有規則  (Enter) 使用預設繼續") ;;
  c <- input_strip "請選擇操作：" ;;
  if (c =? "1")%string then
    n <- input_strip "規則名稱：" ;;
    t <- input_strip "類型 (prefix/suffix)：" ;;
    m <- input_strip "標記符號：" ;;
    d <- input_strip "意義描述：" ;;
    update_game (fun gm => set_morphology (add_rule n t m d (morphology gm)) gm) ;;
    print (ORuleAdded t m d) ;;
    ret true
  else if (c =? "2")%string then
    ms <- gets_game morphology ;;
    (match rules ms with
     | [] => print (OLine "目前尚無規則。")
     | rs => print (OLine "目前構詞規則：") ;; for_each rs (fun r => print (ORule r))
     end) ;;
    ret true
  else
    update_game (fun gm => set_morphology (seed_default_rules (morphology gm)) gm) ;;
    ret false.

(** Lines 126-128: every unknown word becomes a verb when
    [random.random() > 0.5] and a noun otherwise; then the unknown list
    is cleared. *)
Definition reclassify : GM unit :=
  unknown <- vget "unknown" ;;
  for_each unknown (fun w =>
    b <- rand random_gt_half ;;
    if b then vappend "verb" w else vappend "noun" w) ;;
  vclear "unknown".

(** Lines 131-136: one demonstration of a rule on a random word of the
    bucket [k], when the bucket is not empty. *)
Definition demo (k rule : string) (event : string -> string -> Out) : GM unit :=
  l <- vget k ;;
  match l with
  | [] => ret tt
  | _ => l' <- vget k ;;
         x <- rand (choice l') ;;
         ms <- gets_game morphology ;;
         print (event x (apply_morphology ms x rule))
  end.

(** [level_2_morphology] (lines 98-137) *)
Definition level_2_morphology : GM unit :=
  print (OLine (NL ++ "🔧 第二關：構詞系統設定")) ;;
  print (OLine (str_repeat "-" 40)) ;;
  print (OLine "預設構詞規則：ma-(否定)、-in(完成體)、-an(名詞化)") ;;
  while_true morphology_step ;;
  reclassify ;;
  print (OLine (NL ++ "🎯 構詞示範：")) ;;
  demo "verb" "past" OPast ;;
  demo "noun" "nominal" ONominal ;;
  _ <- input (NL ++ "按 Enter 進入第三關...") ;;
  ret tt.

(** Lines 152-154: a word of the bucket [k], or a fresh word when the
    bucket is empty. *)
Definition pick (k : string) : GM string :=
  l <- vget k ;;
  match l with
  | [] => ph <- gets_game phonology ;; rand (generate_word ph None)
  | _ => l' <- vget k ;; rand (choice l')
  end.

(** Lines 152-157: one sample sentence and its question form. *)
Definition sample_sentence (i : nat) : GM unit :=
  s <- pick "noun" ;;
  v <- pick "verb" ;;
  o <- pick "noun" ;;
  sy <- gets_game syntax ;;
  print (OSentence (i + 1) (generate_sentence sy s v o)) ;;
  print (OQuestion (question_form sy (generate_sentence sy s v o))).

(** [level_3_syntax] (lines 139-158) *)
Definition level_3_syntax : GM unit :=
  print (OLine (NL ++ "📝 第三關：句法系統設定")) ;;
  print (OLine (str_repeat "-" 40)) ;;
  sy <- gets_game syntax ;;
  print (OWordOrder (word_order sy)) ;;
  print (OQuestionMarker (question_marker sy)) ;;
  o <- input_strip "是否要更改語序？(VOS/SVO/SOV/VSO 或 Enter 保留預設)：" ;;
  update_game (fun gm => set_syntax (set_word_order o (syntax gm)) gm) ;;
  q <- input_strip "是否要修改疑問標記？(例如 ka, ma, ? 或 Enter 保留)：" ;;
  update_game (fun gm => set_syntax (set_question_marker q (syntax gm)) gm) ;;
  print (OLine (NL ++ "🎨 生成範例句：")) ;;
  for_range 3 sample_sentence ;;
  _ <- input (NL ++ "按 Enter 進入最終展示...") ;;
  ret tt.

(** The six fixed sentences of lines 164-171. *)
Definition samples : list string :=
  ["mita laqi bubu"; "miying Tama"; "ma-lukus laqi"; "pita qhuni idaw";
   "s-malu tama laqi"; "miyax bubu qhuni"].

(** [final_showcase] (lines 160-172): [enumerate(samples, 1)]. *)
Definition final_showcase : GM unit :=
  print (OLine (NL ++ "🌟 最終展示 🌟")) ;;
  print (OLine (str_repeat "=" 50)) ;;
  print (OLine "🎉 你的太魯閣語風格句子 🎉") ;;
  for_each (zip (seq 1 (length samples)) samples) (fun '(i, s) => print (OSample i s)).

(** [run_game] (lines 174-179) *)
Definition run_game : GM unit :=
  display_welcome ;;
  level_1_phonology ;;
  level_2_morphology ;;
  level_3_syntax ;;
  final_showcase.

(** [LanguageCreatorGame().run_game()] on the given input lines and
    random source (lines 181-182). *)
Definition main (lines : list string) (g : G) : outcome (World G) unit :=
  run_game (mkWorld init_game lines [] g).
End Stages.

End Game.
