(* ===== verification/Emits.v ===== *)
(** * What a computation prints, seen through a projection

    A program logic for the printed output. A projection [proj] picks the
    events of interest ([Some x]) out of the printed events; [emits proj m
    B] says that, from any world and whatever the outcome of [m] (return,
    exception, or running out of fuel), the events [m] prints project to a
    prefix of [B], and to all of [B] when [m] returns. The rules follow the
    structure of the code: one per primitive of [Game], [bind] appending
    the lists, [for] mapping, and the menu loops projecting to nothing when
    their body does. [solve_silent] proves [emits proj m []] for a
    computation none of whose events is projected. *)
From stdpp Require Import gmap.
From S2P Require Import Prelude PyStr PyRandom Phonology Morphology Syntax Vocab Game.
Import Phonology Morphology Syntax Vocab Game.

Module Emits.

Section Emits.
Context {G X : Type} (proj : Out -> option X).
Implicit Types (w : World G).

Definition emits {A} (m : st (World G) A) (B : list X) : Prop :=
  forall w, exists o, stdout (final (m w)) = stdout w ++ o /\ omap proj o `prefix_of` B /\
    (forall a w', m w = Ret a w' -> omap proj o = B).

Lemma emits_silent {A} (m : st (World G) A) :
  (forall w, stdout (final (m w)) = stdout w) -> emits m [].
Proof. intros H w. exists []. rewrite app_nil_r, H. done. Qed.

Lemma emits_ret {A} (a : A) : emits (ret a) [].
Proof. by apply emits_silent. Qed.

Lemma emits_print_silent o : proj o = None -> emits (print o) [].
Proof. intros Ho w. exists [o]. simpl. rewrite Ho. done. Qed.

Lemma emits_print_one o x : proj o = Some x -> emits (print o) [x].
Proof. intros Ho w. exists [o]. simpl. rewrite Ho. done. Qed.

Lemma emits_bind {A C} (m : st (World G) A) (k : A -> st (World G) C) B1 B2 :
  emits m B1 -> (forall a, emits (k a) B2) -> emits (bind m k) (B1 ++ B2).
Proof.
  intros Hm Hk w. destruct (Hm w) as (o1 & Ho1 & Hp1 & Hr1). unfold bind.
  destruct (m w) as [a w1|e w1|w1]; simpl in *.
  - destruct (Hk a w1) as (o2 & Ho2 & Hp2 & Hr2). exists (o1 ++ o2).
    rewrite Ho2, Ho1, app_assoc, omap_app, (Hr1 a w1 eq_refl).
    split_and!; [done | by apply prefix_app | intros b w' E; by rewrite (Hr2 b w' E)].
  - exists o1. split_and!; [done | by apply prefix_app_r | done].
  - exists o1. split_and!; [done | by apply prefix_app_r | done].
Qed.

(** The two ways [bind] is used: a silent step before, or a silent
    continuation after, the step that prints [B]. *)
Lemma emits_bind_r {A C} (m : st (World G) A) (k : A -> st (World G) C) B :
  emits m [] -> (forall a, emits (k a) B) -> emits (bind m k) B.
Proof. intros. by apply (emits_bind m k [] B). Qed.

Lemma emits_bind_l {A C} (m : st (World G) A) (k : A -> st (World G) C) B :
  emits m B -> (forall a, emits (k a) []) -> emits (bind m k) B.
Proof. intros. rewrite <- (app_nil_r B). by apply emits_bind. Qed.

(** [for x in xs: body(x)] where each pass prints one projected event. *)
Lemma emits_for_each_map {A} (f : A -> X) (xs : list A) (body : A -> st (World G) unit) :
  (forall x, emits (body x) [f x]) -> emits (for_each xs body) (map f xs).
Proof. intros Hb. induction xs; simpl; [apply emits_ret | by apply (emits_bind _ _ [f a])]. Qed.

Lemma emits_for_each {A} (xs : list A) (body : A -> st (World G) unit) :
  (forall x, emits (body x) []) -> emits (for_each xs body) [].
Proof. intros Hb. induction xs; simpl; [apply emits_ret | by apply emits_bind_r]. Qed.

Lemma emits_loop_fuel n (body : st (World G) bool) :
  emits body [] -> emits (loop_fuel n body) [].
Proof.
  intros Hb. induction n as [|n IH]; simpl; [by apply emits_silent|].
  apply emits_bind_r; [done | intros [|]; [done | apply emits_ret]].
Qed.

Lemma emits_while_true (body : st (World G) bool) : emits body [] -> emits (while_true body) [].
Proof. intros Hb. apply emits_bind_r; [by apply emits_silent | intros; by apply emits_loop_fuel]. Qed.

Lemma emits_read_line : emits read_line [].
Proof. apply emits_silent. intros w. unfold read_line. by destruct (stdin w). Qed.

Lemma emits_update_game f : emits (update_game f) [].
Proof. by apply emits_silent. Qed.

Lemma emits_gets_game {A} (f : Game -> A) : emits (gets_game f) [].
Proof. by apply emits_silent. Qed.

Lemma emits_vget k : emits (vget k) [].
Proof. apply emits_silent. intros w. unfold vget. by destruct (dd_get k (vocab (game w))). Qed.

Lemma emits_rand {A} (m : st G A) : emits (rand m) [].
Proof. apply emits_silent. intros w. unfold rand, lift. by destruct (m (rng w)). Qed.
End Emits.

Create HintDb emits.
#[export] Hint Resolve emits_ret emits_read_line emits_update_game emits_gets_game emits_vget
  emits_rand : emits.

(** Proves [emits proj m []] for a computation none of whose printed
    events is projected (the projection is computed on each event). *)
Ltac solve_silent :=
  repeat first
    [ progress intros
    | solve [eauto with emits]
    | apply emits_print_silent; vm_compute; reflexivity
    | apply emits_while_true
    | apply emits_for_each
    | apply emits_bind_r
    | match goal with |- emits _ (if ?b then _ else _) _ => destruct b end
    | match goal with |- emits _ (match ?x with _ => _ end) _ => destruct x end ].

(** Proves [emits proj m [x]] for a computation that prints one projected
    event: silent steps up to it, then a silent rest. *)
Ltac solve_one :=
  repeat (apply emits_bind_r; [solve [solve_silent] | intros]);
  apply emits_bind_l; [apply emits_print_one; vm_compute; reflexivity | solve [solve_silent]].

End Emits.
