(* ===== verification/GameProps.v ===== *)
(** * Properties of the game

    Theorems about [Game] for every input and every random source:
    termination of the two menu loops and of the whole run (by the measure
    "number of input lines left"), the symbolic execution of the
    reclassification of the vocabulary, the classification of the
    exceptions a run can end in ([exn_only] with [crash_ok]: [EOFError]
    on exhausted input, [IndexError] on an emptied inventory, never
    [ValueError]) and the invariant every operation keeps ([preserves]
    with [game_ok]: non-empty graphemes, default patterns, a known word
    order). The runs on concrete scripts are in [Session]. *)
From stdpp Require Import gmap.
From S2P Require Import Prelude PyStr PyRandom Phonology Morphology Syntax Vocab Game.
Import Phonology Morphology Syntax Vocab Game.

Module GameProps.

(** ** Consumption of standard input *)
Section Measure.
Context {G : Type}.
Implicit Types (w : World G).

(** [m] never adds input lines, and [m] reads at least one. *)
Definition nonincr {A} (m : st (World G) A) : Prop :=
  forall w a w', m w = Ret a w' -> length (stdin w') <= length (stdin w).
Definition decr {A} (m : st (World G) A) : Prop :=
  forall w a w', m w = Ret a w' -> length (stdin w') < length (stdin w).

Lemma nonincr_of_decr {A} (m : st (World G) A) : decr m -> nonincr m.
Proof. intros H w a w' E. specialize (H w a w' E). lia. Qed.

Lemma nonincr_ret {A} (a : A) : nonincr (ret a).
Proof. intros w ? ? E. by inversion E. Qed.

Lemma nonincr_bind {A B} (m : st (World G) A) (k : A -> st (World G) B) :
  nonincr m -> (forall a, nonincr (k a)) -> nonincr (bind m k).
Proof.
  intros Hm Hk w b w'' E. apply bind_Ret_inv in E as (a & w' & E1 & E2).
  specialize (Hm _ _ _ E1). specialize (Hk _ _ _ _ E2). lia.
Qed.

Lemma decr_bind_l {A B} (m : st (World G) A) (k : A -> st (World G) B) :
  decr m -> (forall a, nonincr (k a)) -> decr (bind m k).
Proof.
  intros Hm Hk w b w'' E. apply bind_Ret_inv in E as (a & w' & E1 & E2).
  specialize (Hm _ _ _ E1). specialize (Hk _ _ _ _ E2). lia.
Qed.

Lemma decr_bind_r {A B} (m : st (World G) A) (k : A -> st (World G) B) :
  nonincr m -> (forall a, decr (k a)) -> decr (bind m k).
Proof.
  intros Hm Hk w b w'' E. apply bind_Ret_inv in E as (a & w' & E1 & E2).
  specialize (Hm _ _ _ E1). specialize (Hk _ _ _ _ E2). lia.
Qed.

Lemma nonincr_modify f : (forall w, stdin (f w) = stdin w) -> nonincr (modify f).
Proof. intros Hf w ? ? E. unfold modify in E. injection E as <- <-. rewrite Hf. lia. Qed.

Lemma nonincr_gets {A} (f : World G -> A) : nonincr (gets f).
Proof. intros w ? ? E. by inversion E. Qed.

Lemma nonincr_print o : nonincr (print (G:=G) o).
Proof. by apply nonincr_modify. Qed.

Lemma nonincr_update_game f : nonincr (update_game (G:=G) f).
Proof. by apply nonincr_modify. Qed.

Lemma nonincr_gets_game {A} (f : Game -> A) : nonincr (gets_game (G:=G) f).
Proof. apply nonincr_gets. Qed.

Lemma nonincr_vget k : nonincr (vget (G:=G) k).
Proof. intros w ? ? E. unfold vget in E. destruct (dd_get _ _). by inversion E. Qed.

Lemma nonincr_rand {A} (m : st G A) : nonincr (rand m).
Proof. intros w ? ? E. unfold rand, lift in E. destruct (m (rng w)); by inversion E. Qed.

Lemma decr_read_line : decr (read_line (G:=G)).
Proof.
  intros w ? ? E. unfold read_line in E. destruct (stdin w) eqn:Hin; inversion E; subst.
  simpl. lia.
Qed.

Lemma decr_input p : decr (input (G:=G) p).
Proof. apply decr_bind_r; [apply nonincr_print | intros; apply decr_read_line]. Qed.

Lemma decr_input_strip p : decr (input_strip (G:=G) p).
Proof. apply decr_bind_l; [apply decr_input | intros; apply nonincr_ret]. Qed.

Lemma nonincr_for_each {A} (xs : list A) (body : A -> st (World G) unit) :
  (forall x, nonincr (body x)) -> nonincr (for_each xs body).
Proof. intros Hb. induction xs; simpl; [apply nonincr_ret | by apply nonincr_bind]. Qed.

(** [loop_fuel n body] never runs out of fuel when [n] exceeds the number
    of input lines and every pass of [body] reads a line. *)
Lemma loop_fuel_fuel_free (body : st (World G) bool) :
  total body -> decr body ->
  forall n w, length (stdin w) < n -> fuel_free (loop_fuel n body w).
Proof.
  intros Ht Hd n. induction n as [|n IH]; intros w Hw; [lia|]. simpl. unfold bind.
  pose proof (Ht w) as Hb. destruct (body w) as [[|] w'|e w'|w'] eqn:E; simpl in *; auto.
  apply IH. pose proof (Hd _ _ _ E). lia.
Qed.

Lemma total_while_true (body : st (World G) bool) :
  total body -> decr body -> total (while_true body).
Proof. intros Ht Hd w. apply (loop_fuel_fuel_free body Ht Hd). simpl. lia. Qed.

Lemma total_print o : total (print (G:=G) o).
Proof. by intros w. Qed.

Lemma total_read_line : total (read_line (G:=G)).
Proof. intros w. unfold read_line. by destruct (stdin w). Qed.

Lemma total_input p : total (input (G:=G) p).
Proof. apply total_bind; [apply total_print | intros; apply total_read_line]. Qed.

Lemma total_input_strip p : total (input_strip (G:=G) p).
Proof. apply total_bind; [apply total_input | intros; apply total_ret]. Qed.

Lemma total_update_game f : total (update_game (G:=G) f).
Proof. by intros w. Qed.

Lemma total_gets_game {A} (f : Game -> A) : total (gets_game (G:=G) f).
Proof. by intros w. Qed.

Lemma total_vget k : total (vget (G:=G) k).
Proof. intros w. unfold vget. by destruct (dd_get _ _). Qed.

Lemma total_rand {A} (m : st G A) : total m -> total (rand m).
Proof. intros Hm. by apply total_lift. Qed.
End Measure.

Create HintDb game discriminated.
#[export] Hint Resolve nonincr_ret nonincr_print nonincr_update_game nonincr_gets_game
  nonincr_vget nonincr_rand decr_read_line decr_input decr_input_strip : game.
#[export] Hint Resolve total_print total_read_line total_input total_input_strip
  total_update_game total_gets_game total_vget total_rand total_while_true
  total_generate_word total_choice total_random_gt_half : game.

(** Proves [nonincr m] for a computation built from the primitives. *)
Ltac solve_nonincr :=
  repeat first
    [ progress intros
    | apply nonincr_bind
    | apply nonincr_for_each
    | solve [eauto with game]
    | apply nonincr_of_decr; solve [eauto with game]
    | match goal with |- nonincr (if ?b then _ else _) => destruct b end
    | match goal with |- nonincr (match ?x with _ => _ end) => destruct x end ].

(** Proves [decr m]: some step reads a line, the others read none. *)
Ltac solve_decr :=
  repeat first
    [ progress intros
    | solve [eauto with game]
    | apply decr_bind_l; [solve [eauto with game] | solve [solve_nonincr]]
    | apply decr_bind_r; [solve [solve_nonincr] |] ].

(** Proves [total m] for a computation built from the primitives. *)
Ltac solve_total :=
  repeat first
    [ progress intros
    | solve [eauto with game py]
    | apply total_bind
    | apply total_for_each
    | match goal with |- total (if ?b then _ else _) => destruct b end
    | match goal with |- total (match ?x with _ => _ end) => destruct x end ].

(** ** Termination *)
Section Termination.
Context `{RS : RandomSource G}.

Lemma decr_phonology_step : decr (phonology_step (G:=G)).
Proof. unfold phonology_step. solve_decr. Qed.

Lemma decr_morphology_step : decr (morphology_step (G:=G)).
Proof. unfold morphology_step. solve_decr. Qed.

Lemma total_phonology_step : total (phonology_step (G:=G)).
Proof. unfold phonology_step. solve_total. Qed.

Lemma total_morphology_step : total (morphology_step (G:=G)).
Proof. unfold morphology_step. solve_total. Qed.

#[local] Hint Resolve decr_phonology_step decr_morphology_step
  total_phonology_step total_morphology_step : game.

Lemma total_level_1 : total (level_1_phonology (G:=G)).
Proof.
  unfold level_1_phonology, for_range, generate_sample_word, vappend.
  solve_total.
Qed.

Lemma total_level_2 : total (level_2_morphology (G:=G)).
Proof.
  unfold level_2_morphology, reclassify, demo, vappend, vclear.
  solve_total.
Qed.

Lemma total_level_3 : total (level_3_syntax (G:=G)).
Proof. unfold level_3_syntax, for_range, sample_sentence, pick. solve_total. Qed.

(** C9: termination: every pass of the two menu loops reads a line (the
    variant: the number of unread lines decreases), and hence, whatever the
    player types and whatever the random draws, the run ends (normally or
    with an exception); the menu loops, bounded by one more than the
    number of input lines, never reach their bound. *)
Theorem run_game_total :
  decr (phonology_step (G:=G)) /\ decr (morphology_step (G:=G)) /\ total (run_game (G:=G)).
Proof.
  split_and!; [apply decr_phonology_step | apply decr_morphology_step |]. unfold run_game. apply total_bind; [unfold display_welcome; solve_total|intros _].
  apply total_bind; [apply total_level_1|intros _].
  apply total_bind; [apply total_level_2|intros _].
  apply total_bind; [apply total_level_3|intros _].
  unfold final_showcase. solve_total.
Qed.
End Termination.

(** ** Execution of the primitives *)
Section Execution.
Context `{RS : RandomSource G}.
Implicit Types (w : World G).

(** The non-vocabulary fields of the game and the input are unchanged. *)
Definition same_but_vocab w w' : Prop :=
  phonology (game w') = phonology (game w) /\ morphology (game w') = morphology (game w) /\
  syntax (game w') = syntax (game w) /\ stdin w' = stdin w.

Lemma same_but_vocab_trans w1 w2 w3 :
  same_but_vocab w1 w2 -> same_but_vocab w2 w3 -> same_but_vocab w1 w3.
Proof. intros (?&?&?&?) (?&?&?&?). split_and!; congruence. Qed.

Lemma runs_rand {A} (m : st G A) w (P : A -> World G -> Prop) :
  runs m (rng w) (fun a g' => P a (set_rng g' w)) -> runs (rand m) w P.
Proof. apply runs_lift. Qed.

Lemma runs_rand_coin w (P : bool -> World G -> Prop) :
  (forall b g', P b (set_rng g' w)) -> runs (rand random_gt_half) w P.
Proof.
  intros HP. apply runs_rand. unfold runs, random_gt_half.
  destruct (random53 (rng w)) as [k g']. eauto.
Qed.

Lemma runs_rand_choice {A} (l : list A) w (P : A -> World G -> Prop) :
  l <> [] -> (forall x g', x ∈ l -> P x (set_rng g' w)) -> runs (rand (choice l)) w P.
Proof.
  intros Hl HP. apply runs_rand.
  destruct (choice_cons l (rng w) Hl) as (x & g' & Hc & Hin). exists x, g'. eauto.
Qed.

Lemma runs_rand_generate_word ph c w (P : string -> World G -> Prop) :
  consonants ph <> ∅ -> vowels ph <> ∅ -> syllable_patterns ph <> [] ->
  (forall x g', P x (set_rng g' w)) -> runs (rand (generate_word ph c)) w P.
Proof.
  intros Hc Hv Hp HP. apply runs_rand.
  destruct (generate_word_ok ph c (rng w) Hc Hv Hp) as (x & g' & H). exists x, g'. eauto.
Qed.

Lemma runs_vappend k x w (P : unit -> World G -> Prop) :
  P tt (set_game (set_vocab (dd_append k x (vocab (game w))) (game w)) w) ->
  runs (vappend k x) w P.
Proof. intros HP. by eapply runs_Ret. Qed.

Lemma runs_vget k w (P : list string -> World G -> Prop) :
  (forall m, dd_equiv m (vocab (game w)) -> P (dd_lookup (vocab (game w)) k) (set_game (set_vocab m (game w)) w)) ->
  runs (vget k) w P.
Proof.
  intros HP. unfold runs, vget. cbv beta. pose proof (dd_get_fst k (vocab (game w))).
  pose proof (dd_get_snd k (vocab (game w))).
  destruct (dd_get k (vocab (game w))) as [l m]. simpl in *. subst l.
  eexists _, _. split; [reflexivity | auto].
Qed.

(** The loop of lines 126-127 over a list [xs] of words: each word goes
    to exactly one of the two buckets, and nothing else changes. *)
Lemma runs_classify_loop xs w :
  runs (for_each xs (fun x =>
          b <- rand random_gt_half ;; if b then vappend "verb" x else vappend "noun" x)) w
    (fun _ w' => same_but_vocab w w' /\ stdout w' = stdout w /\
       exists vs ns,
         dd_lookup (vocab (game w')) "verb" = dd_lookup (vocab (game w)) "verb" ++ vs /\
         dd_lookup (vocab (game w')) "noun" = dd_lookup (vocab (game w)) "noun" ++ ns /\
         vs ++ ns ≡ₚ xs /\
         (forall k, k <> "verb" -> k <> "noun" ->
            dd_lookup (vocab (game w')) k = dd_lookup (vocab (game w)) k)).
Proof.
  revert w. induction xs as [|x xs IH]; intros w; simpl.
  - apply runs_ret. split_and!; try done. exists [], []. rewrite !app_nil_r. auto.
  - apply runs_bind, runs_bind, runs_rand_coin. intros b g'.
    destruct b; apply runs_vappend; refine (runs_mono _ _ _ _ _ (IH _));
      intros _ w' (Hsame & Hout & vs & ns & Hv & Hn & Hp & Ho);
      (split; [destruct Hsame as (?&?&?&?); split_and!; simpl in *; congruence|]);
      (split; [done|]); simpl in *.
    + exists (x :: vs), ns. rewrite Hv, Hn, !dd_lookup_append.
      repeat case_decide; try congruence.
      split_and!; [by rewrite <- app_assoc | done | by rewrite <- Hp |].
      intros k Hk1 Hk2. rewrite Ho, dd_lookup_append by done. case_decide; congruence.
    + exists vs, (x :: ns). rewrite Hv, Hn, !dd_lookup_append.
      repeat case_decide; try congruence.
      split_and!; [done | by rewrite <- app_assoc | rewrite <- Hp; solve_Permutation |].
      intros k Hk1 Hk2. rewrite Ho, dd_lookup_append by done. case_decide; congruence.
Qed.
Lemma runs_reclassify w :
  runs reclassify w (fun _ w' =>
    same_but_vocab w w' /\ stdout w' = stdout w /\
    dd_lookup (vocab (game w')) "unknown" = [] /\
    exists vs ns,
      dd_lookup (vocab (game w')) "verb" = dd_lookup (vocab (game w)) "verb" ++ vs /\
      dd_lookup (vocab (game w')) "noun" = dd_lookup (vocab (game w)) "noun" ++ ns /\
      vs ++ ns ≡ₚ dd_lookup (vocab (game w)) "unknown").
Proof.
  unfold reclassify. apply runs_bind, runs_vget. intros m Hm.
  apply runs_bind. refine (runs_mono _ _ _ _ _ (runs_classify_loop _ _)).
  intros _ w' (Hsame & Hout & vs & ns & Hv & Hn & Hp & Ho).
  eapply runs_Ret; [reflexivity|]. unfold same_but_vocab in *. simpl in *.
  rewrite !dd_lookup_clear. simpl.
  split; [destruct Hsame as (?&?&?&?); split_and!; congruence|].
  split; [done|]. split; [done|].
  exists vs, ns. rewrite Hv, Hn, !Hm. auto.
Qed.

(** C8: lines 126-128 reclassify exhaustively and exclusively: whatever
    the coin flips, [reclassify] returns, the unknown bucket ends empty,
    the verb and noun buckets are only extended, and the words added to
    them are, between them, the former unknown words, each exactly once
    (a permutation); the phonology, rules, syntax, input and output are
    unchanged. *)
Theorem reclassify_partition w :
  exists w', reclassify w = Ret tt w' /\ same_but_vocab w w' /\ stdout w' = stdout w /\
    dd_lookup (vocab (game w')) "unknown" = [] /\
    exists vs ns,
      dd_lookup (vocab (game w')) "verb" = dd_lookup (vocab (game w)) "verb" ++ vs /\
      dd_lookup (vocab (game w')) "noun" = dd_lookup (vocab (game w)) "noun" ++ ns /\
      vs ++ ns ≡ₚ dd_lookup (vocab (game w)) "unknown".
Proof. destruct (runs_reclassify w) as ([] & w' & H & Hpost). eauto. Qed.
End Execution.

(** ** Exceptions

    [crash_ok e w]: the exceptions a run may end in, with the state they
    leave: [EOFError] once standard input is exhausted, [IndexError] when
    the phonology inventory has an empty set (or pattern list). *)
Section Exceptions.
Context `{RS : RandomSource G}.
Implicit Types (w : World G).

Definition crash_ok (e : PyExc) w : Prop :=
  (e = EOFError /\ stdin w = []) \/ (e = IndexError /\ inventory_empty (phonology (game w))).

Lemma safe_read_line : exn_only crash_ok (read_line (G:=G)).
Proof. intros w e w' H. unfold read_line in H. destruct (stdin w) eqn:E; simplify_eq; by left. Qed.

Lemma safe_input p : exn_only crash_ok (input (G:=G) p).
Proof. apply exn_only_bind; [apply exn_only_modify | intros; apply safe_read_line]. Qed.

Lemma safe_input_strip p : exn_only crash_ok (input_strip (G:=G) p).
Proof. apply exn_only_bind; [apply safe_input | intros; apply exn_only_ret]. Qed.

Lemma safe_print o : exn_only crash_ok (print (G:=G) o).
Proof. apply exn_only_modify. Qed.

Lemma safe_update_game f : exn_only crash_ok (update_game (G:=G) f).
Proof. apply exn_only_modify. Qed.

Lemma safe_gets_game {A} (f : Game -> A) : exn_only crash_ok (gets_game (G:=G) f).
Proof. apply exn_only_gets. Qed.

Lemma vget_Ret k w l w' :
  vget k w = Ret l w' -> l = dd_lookup (vocab (game w)) k /\ same_but_vocab w w' /\
    dd_equiv (vocab (game w')) (vocab (game w)).
Proof.
  unfold vget. pose proof (dd_get_fst k (vocab (game w))). pose proof (dd_get_snd k (vocab (game w))).
  destruct (dd_get k (vocab (game w))) as [l0 m]. simpl in *. intros E. simplify_eq.
  by split_and!.
Qed.

Lemma safe_vget k : exn_only crash_ok (vget (G:=G) k).
Proof. intros w e w' H. unfold vget in H. by destruct (dd_get k (vocab (game w))). Qed.

Lemma safe_rand_coin : exn_only crash_ok (rand (G:=G) random_gt_half).
Proof. intros w e w' H. unfold rand, lift, random_gt_half in H. by destruct (random53 (rng w)). Qed.

Lemma safe_loop_fuel n (body : st (World G) bool) :
  exn_only crash_ok body -> exn_only crash_ok (loop_fuel n body).
Proof.
  intros Hb. induction n as [|n IH]; simpl; [apply exn_only_out_of_fuel|].
  apply exn_only_bind; [done | intros [|]; [done | apply exn_only_ret]].
Qed.

Lemma safe_while_true (body : st (World G) bool) :
  exn_only crash_ok body -> exn_only crash_ok (while_true body).
Proof. intros Hb. apply exn_only_bind; [apply exn_only_get | intros; by apply safe_loop_fuel]. Qed.

(** A draw of [generate_word] on the current inventory raises only when
    the inventory is empty; a draw of [choice] on a non-empty list never
    raises. *)
Lemma rand_generate_word_raises c w e w' :
  rand (generate_word (phonology (game w)) c) w = Exn e w' -> crash_ok e w'.
Proof.
  unfold rand, lift. destruct (generate_word _ c (rng w)) eqn:E; intros H; simplify_eq.
  right. exact (generate_word_raises _ _ _ _ _ E).
Qed.

Lemma rand_choice_raises {A} (l : list A) w e w' : l <> [] -> rand (choice l) w <> Exn e w'.
Proof.
  intros Hl. unfold rand, lift. destruct (choice_cons l (rng w) Hl) as (x & g' & -> & _). done.
Qed.

Lemma safe_generate_sample_word i : exn_only crash_ok (generate_sample_word (G:=G) i).
Proof.
  intros w e w' H. unfold generate_sample_word in H.
  apply bind_Exn_inv in H as [H | (ph & w1 & H1 & H)]; [done|]. injection H1 as <- <-.
  apply bind_Exn_inv in H as [H | (x & w2 & H2 & H)]; [by eapply rand_generate_word_raises|].
  revert H. apply exn_only_bind; [apply safe_print | intros; apply safe_update_game].
Qed.

Lemma rand_choice_bind_raises {A B} (l : list A) (K : A -> st (World G) B) w e w' :
  l <> [] -> bind (rand (choice l)) K w = Exn e w' -> exists x w2, K x w2 = Exn e w'.
Proof.
  intros Hl H. apply bind_Exn_inv in H as [H | (x & w2 & _ & H)]; [|eauto].
  by apply rand_choice_raises in H.
Qed.

(** The guard [if self.vocab[k]:] of lines 131-136 and 152-154 makes the
    draw [random.choice(self.vocab[k])] safe: the second read of the
    bucket returns the same non-empty list. *)
Lemma safe_pick k : exn_only crash_ok (pick (G:=G) k).
Proof.
  intros w e w' H. unfold pick in H.
  apply bind_Exn_inv in H as [H | (l & w1 & H1 & H)]; [by eapply safe_vget|].
  apply vget_Ret in H1 as (-> & _ & Hm). destruct (dd_lookup _ k) as [|x xs] eqn:E.
  - apply bind_Exn_inv in H as [H | (ph & w2 & H2 & H)]; [done|]. injection H2 as <- <-.
    by eapply rand_generate_word_raises.
  - apply bind_Exn_inv in H as [H | (l' & w2 & H2 & H)]; [by eapply safe_vget|].
    apply vget_Ret in H2 as (-> & _). rewrite (Hm k), E in H. by apply rand_choice_raises in H.
Qed.

Lemma safe_demo k rule ev : exn_only crash_ok (demo (G:=G) k rule ev).
Proof.
  intros w e w' H. unfold demo in H.
  apply bind_Exn_inv in H as [H | (l & w1 & H1 & H)]; [by eapply safe_vget|].
  apply vget_Ret in H1 as (-> & _ & Hm). destruct (dd_lookup _ k) as [|x xs] eqn:E; [done|].
  apply bind_Exn_inv in H as [H | (l' & w2 & H2 & H)]; [by eapply safe_vget|].
  apply vget_Ret in H2 as (-> & _). rewrite (Hm k), E in H.
  apply rand_choice_bind_raises in H as (y & w3 & H); [|done]. revert H.
  apply exn_only_bind; [apply safe_gets_game | intros; apply safe_print].
Qed.
End Exceptions.

#[export] Hint Resolve safe_print safe_input safe_input_strip safe_update_game safe_gets_game
  safe_vget safe_rand_coin safe_while_true safe_generate_sample_word safe_pick safe_demo : game.

(** Proves [exn_only crash_ok m] for a computation built from the
    primitives. *)
Ltac solve_safe :=
  repeat first
    [ progress intros
    | solve [eauto with game py]
    | apply exn_only_bind
    | apply exn_only_for_each
    | match goal with |- exn_only _ (if ?b then _ else _) => destruct b end
    | match goal with |- exn_only _ (match ?x with _ => _ end) => destruct x end ].

Section RunExceptions.
Context `{RS : RandomSource G}.

Lemma safe_phonology_step : exn_only crash_ok (phonology_step (G:=G)).
Proof. unfold phonology_step. solve_safe. Qed.

Lemma safe_morphology_step : exn_only crash_ok (morphology_step (G:=G)).
Proof. unfold morphology_step. solve_safe. Qed.

#[local] Hint Resolve safe_phonology_step safe_morphology_step : game.

Lemma safe_run_game : exn_only crash_ok (run_game (G:=G)).
Proof.
  unfold run_game, display_welcome, level_1_phonology, level_2_morphology, level_3_syntax,
    final_showcase, reclassify, for_range, sample_sentence, vappend, vclear.
  solve_safe.
Qed.

(** C11: the run never raises [ValueError], raises [EOFError] only once
    standard input is exhausted, and raises [IndexError] only when the
    phonology inventory has become empty: the guarded draws of lines 131-136
    and 152-154 never fail, and [randint(1, 3)] is always well formed. *)
Theorem run_game_exceptions lines (g : G) e w' : main lines g = Exn e w' -> crash_ok e w'.
Proof. apply safe_run_game. Qed.
End RunExceptions.

Lemma run_game_exceptions_witness : crash_ok EOFError (final (main (G:=list nat) [] [])).
Proof. apply (run_game_exceptions [] []). vm_compute. reflexivity. Defined.

(** ** The invariant of a run

    [game_ok]: no grapheme is empty, the syllable patterns are the
    defaults (no stage changes them), the word order is one of the four
    known ones, and the vocabulary is typed: its keys are the three
    categories the code names. Every operation of a run keeps it, whatever
    its outcome. *)
Definition vocab_keys : list string := ["unknown"; "verb"; "noun"].

Definition vocab_typed (m : gmap string (list string)) : Prop :=
  map_Forall (fun k _ => k ∈ vocab_keys) m.

Definition game_ok (gm : Game) : Prop :=
  graphemes_nonempty (phonology gm) /\
  syllable_patterns (phonology gm) = syllable_patterns default_phonology /\
  valid_order (syntax gm) /\
  vocab_typed (vocab gm).

Lemma vocab_typed_insert k l m : k ∈ vocab_keys -> vocab_typed m -> vocab_typed (<[k := l]> m).
Proof. intros Hk Hm. by apply map_Forall_insert_2. Qed.

Lemma vocab_typed_get k m : k ∈ vocab_keys -> vocab_typed m -> vocab_typed (dd_get k m).2.
Proof. intros Hk Hm. unfold dd_get. destruct (m !! k); simpl; [done|]. by apply vocab_typed_insert. Qed.

Lemma init_game_ok : game_ok init_game.
Proof.
  split_and!; [split; apply set_Forall_list_to_set; repeat constructor; discriminate | done | |].
  - unfold valid_order. simpl. set_solver.
  - apply map_Forall_empty.
Qed.

Section Invariant.
Context `{RS : RandomSource G}.
Implicit Types (w : World G).

Definition world_ok w : Prop := game_ok (game w).

Lemma ok_print o : preserves world_ok (print (G:=G) o).
Proof. by apply preserves_modify. Qed.

Lemma ok_read_line : preserves world_ok (read_line (G:=G)).
Proof. intros w Hw. unfold read_line. by destruct (stdin w). Qed.

Lemma ok_input p : preserves world_ok (input (G:=G) p).
Proof. apply preserves_bind; [apply ok_print | intros; apply ok_read_line]. Qed.

Lemma ok_input_strip p : preserves world_ok (input_strip (G:=G) p).
Proof. apply preserves_bind; [apply ok_input | intros; apply preserves_ret]. Qed.

Lemma ok_gets_game {A} (f : Game -> A) : preserves world_ok (gets_game (G:=G) f).
Proof. by intros w. Qed.

Lemma ok_vget k : k ∈ vocab_keys -> preserves world_ok (vget (G:=G) k).
Proof.
  intros Hk w (Hg & Hp & Ho & Hv). unfold vget.
  pose proof (vocab_typed_get k _ Hk Hv). destruct (dd_get k (vocab (game w))) as [l m]; simpl in *.
  by split_and!.
Qed.

Lemma ok_rand {A} (m : st G A) : preserves world_ok (rand m).
Proof. intros w Hw. unfold rand, lift. by destruct (m (rng w)). Qed.

Lemma ok_update_game f :
  (forall gm, game_ok gm -> game_ok (f gm)) -> preserves world_ok (update_game (G:=G) f).
Proof. intros Hf. apply preserves_modify. intros w. apply Hf. Qed.

Lemma ok_loop_fuel n (body : st (World G) bool) :
  preserves world_ok body -> preserves world_ok (loop_fuel n body).
Proof.
  intros Hb. induction n as [|n IH]; simpl; [by intros w|].
  apply preserves_bind; [done | intros [|]; [done | apply preserves_ret]].
Qed.

Lemma ok_while_true (body : st (World G) bool) :
  preserves world_ok body -> preserves world_ok (while_true body).
Proof. intros Hb. apply preserves_bind; [apply preserves_get | intros; by apply ok_loop_fuel]. Qed.

(** The updates of the game the stages make. *)
Lemma game_ok_phonology gm ph :
  game_ok gm -> graphemes_nonempty ph -> syllable_patterns ph = syllable_patterns (phonology gm) ->
  game_ok (set_phonology ph gm).
Proof. intros (_ & Hp & Ho & Hv) Hg Hp'. unfold game_ok; simpl. split_and!; [done | by rewrite Hp' | done | done]. Qed.

Lemma ok_add_consonant c : (c =? "")%string = false ->
  preserves world_ok (update_game (G:=G) (fun gm => set_phonology (add_consonant c (phonology gm)) gm)).
Proof.
  intros Hc. apply ok_update_game. intros gm Hgm. apply game_ok_phonology; [done | | done].
  destruct Hgm as ((Hc' & Hv') & _). split; [|done]. apply set_Forall_union; [|done].
  apply set_Forall_singleton. intros ->. discriminate.
Qed.

Lemma ok_add_vowel v : (v =? "")%string = false ->
  preserves world_ok (update_game (G:=G) (fun gm => set_phonology (add_vowel v (phonology gm)) gm)).
Proof.
  intros Hv. apply ok_update_game. intros gm Hgm. apply game_ok_phonology; [done | | done].
  destruct Hgm as ((Hc' & Hv') & _). split; [done|]. apply set_Forall_union; [|done].
  apply set_Forall_singleton. intros ->. discriminate.
Qed.

Lemma ok_remove_consonant c :
  preserves world_ok (update_game (G:=G) (fun gm => set_phonology (remove_consonant c (phonology gm)) gm)).
Proof.
  apply ok_update_game. intros gm Hgm. apply game_ok_phonology; [done | | done].
  destruct Hgm as ((Hc' & Hv') & _). split; [|done]. intros x Hx. apply Hc'. by apply elem_of_difference in Hx as [? _].
Qed.

Lemma ok_remove_vowel v :
  preserves world_ok (update_game (G:=G) (fun gm => set_phonology (remove_vowel v (phonology gm)) gm)).
Proof.
  apply ok_update_game. intros gm Hgm. apply game_ok_phonology; [done | | done].
  destruct Hgm as ((Hc' & Hv') & _). split; [done|]. intros x Hx. apply Hv'. by apply elem_of_difference in Hx as [? _].
Qed.

Lemma ok_set_morphology f :
  preserves world_ok (update_game (G:=G) (fun gm => set_morphology (f (morphology gm)) gm)).
Proof. apply ok_update_game. by intros gm (? & ? & ? & ?). Qed.

Lemma ok_dd_append k x : k ∈ vocab_keys ->
  preserves world_ok (update_game (G:=G) (fun gm => set_vocab (dd_append k x (vocab gm)) gm)).
Proof.
  intros Hk. apply ok_update_game. intros gm (? & ? & ? & Hv). split_and!; try done. simpl.
  rewrite dd_append_eq. by apply vocab_typed_insert.
Qed.

Lemma ok_dd_clear k : k ∈ vocab_keys ->
  preserves world_ok (update_game (G:=G) (fun gm => set_vocab (dd_clear k (vocab gm)) gm)).
Proof.
  intros Hk. apply ok_update_game. intros gm (? & ? & ? & Hv). split_and!; try done. simpl.
  rewrite dd_clear_eq. by apply vocab_typed_insert.
Qed.

Lemma ok_set_word_order o :
  preserves world_ok (update_game (G:=G) (fun gm => set_syntax (set_word_order o (syntax gm)) gm)).
Proof.
  apply ok_update_game. intros gm (? & ? & Ho & ?). split_and!; try done. simpl.
  unfold set_word_order, valid_order in *. by case_bool_decide.
Qed.

Lemma ok_set_question_marker q :
  preserves world_ok (update_game (G:=G) (fun gm => set_syntax (set_question_marker q (syntax gm)) gm)).
Proof. apply ok_update_game. intros gm (? & ? & Ho & ?). split_and!; try done. by destruct q. Qed.
End Invariant.

#[export] Hint Resolve ok_print ok_input ok_input_strip ok_gets_game ok_vget ok_rand ok_while_true
  ok_add_consonant ok_add_vowel ok_remove_consonant ok_remove_vowel ok_set_morphology
  ok_dd_append ok_dd_clear ok_set_word_order ok_set_question_marker : game.
#[export] Hint Extern 1 (_ ∈ vocab_keys) => apply (bool_decide_unpack _); vm_compute; exact I : game.

(** Proves [preserves world_ok m] for a computation built from the
    primitives; the tests of [if]s are kept as hypotheses for the guarded
    updates. *)
Ltac solve_ok :=
  repeat first
    [ progress intros
    | solve [eauto with game py]
    | apply preserves_bind
    | apply preserves_for_each
    | match goal with |- preserves _ (if ?b then _ else _) => destruct b eqn:? end
    | match goal with |- preserves _ (match ?x with _ => _ end) => destruct x end ].

Section RunInvariant.
Context `{RS : RandomSource G}.

Lemma ok_phonology_step : preserves world_ok (phonology_step (G:=G)).
Proof. unfold phonology_step. solve_ok. Qed.

Lemma ok_morphology_step : preserves world_ok (morphology_step (G:=G)).
Proof. unfold morphology_step. solve_ok. Qed.

#[local] Hint Resolve ok_phonology_step ok_morphology_step : game.

Lemma preserves_run_game : preserves world_ok (run_game (G:=G)).
Proof.
  unfold run_game, display_welcome, level_1_phonology, level_2_morphology, level_3_syntax,
    final_showcase, reclassify, for_range, sample_sentence, generate_sample_word, demo, pick,
    vappend, vclear.
  solve_ok.
Qed.

(** C10: whatever the input and the draws, and however the run ends, the
    game it leaves has no empty grapheme (lines 78 and 84 reject empty
    input), the default syllable patterns (no code path edits them), a
    word order among VOS, SVO, SOV and VSO (line 146 rejects the others)
    and a vocabulary keyed by the three categories only. *)
Theorem run_game_invariant lines (g : G) : game_ok (game (final (main lines g))).
Proof. apply preserves_run_game, init_game_ok. Qed.
End RunInvariant.

End GameProps.
