(* ===== verification/Output.v ===== *)
(** * The inventory screen of stage 1

    Lines 67-70 of [level_1_phonology] open the stage with its title, a
    rule of dashes, and the two inventory lines
    [print("目前預設子音：", ', '.join(sorted(self.phonology.consonants)))]
    and the same for the vowels. [join_sorted] models
    [', '.join(sorted(gs))]; [join_sorted_spec] shows that it prints the
    strictly increasing enumeration of the set. [stage1_inventory_screen]
    proves that, from any state, stage 1 prints as its third and fourth
    lines the current consonants, then the current vowels, each sorted
    and under its own label, whatever the rest of the stage does. *)
From stdpp Require Import gmap sorting.
From S2P Require Import Prelude PyStr PyRandom Phonology Morphology Syntax Vocab Game Emits.
Import Phonology Game Emits.

Module Output.

(** [l] enumerates the set [gs] once each, in increasing order. *)
Definition sorted_enum (gs : gset string) (l : list string) : Prop :=
  NoDup l /\ Sorted String.le l /\ list_to_set l = gs.

(** The list Python's [sorted] returns on a set is the only strictly
    increasing enumeration of the set. *)
Lemma merge_sort_elements_unique (gs : gset string) l :
  sorted_enum gs l -> merge_sort String.le (elements gs) = l.
Proof.
  intros (Hnd & Hs & <-). apply (Sorted_unique String.le); [apply Sorted_merge_sort | done |].
  { apply _. }
  rewrite merge_sort_Permutation. apply NoDup_Permutation; [apply NoDup_elements | done |].
  intros x. by rewrite elem_of_elements, elem_of_list_to_set.
Qed.

Lemma join_sorted_spec (gs : gset string) l :
  sorted_enum gs l -> join_sorted gs = String.concat ", " l.
Proof. intros. unfold join_sorted. f_equal. by apply merge_sort_elements_unique. Qed.

(** Rewrites the first [bind] of the goal whose left side returns at once. *)
Ltac step_ret :=
  lazymatch goal with
  | |- context [bind ?m ?k ?s] => rewrite (bind_Ret m k s _ _ eq_refl); cbv beta
  end.

(** The projection that selects nothing: [emits nothing m []] says only
    that [m] appends to the output. *)
Definition nothing (o : Out) : option unit := None.

Section Screen.
Context `{RS : RandomSource G}.

(** The first four events stage 1 prints, from any state; the rest of the
    stage only appends to the output, however it ends. *)
Lemma level_1_prints_first (w : World G) :
  exists o, stdout (final (level_1_phonology w)) = stdout w ++
    [OLine (NL ++ "🔤 第一關：音韻系統設定"); OLine (str_repeat "-" 40);
     OInventory "目前預設子音：" (consonants (phonology (game w)));
     OInventory "目前預設母音：" (vowels (phonology (game w)))] ++ o.
Proof.
  destruct w as [gm inp out g]. unfold level_1_phonology. do 5 step_ret.
  lazymatch goal with
  | |- exists o, stdout (final (?t ?w4)) = _ =>
      assert (Ht : emits nothing t []) by
        (unfold phonology_step, for_range, generate_sample_word, vappend, input; solve_silent);
      destruct (Ht w4) as (o & Ho & _)
  end.
  exists o. rewrite Ho. cbn [stdout]. by rewrite <- !app_assoc.
Qed.

(** C18: the inventory screen of stage 1 (lines 67-70): from any state,
    the third and fourth lines stage 1 prints are the consonant line and
    then the vowel line, each its label, a space, and the current set in
    increasing code-point order joined with [", "], whatever the menu,
    the word generation and the rest of the stage do afterwards. *)
Theorem stage1_inventory_screen (w : World G) lc lv :
  sorted_enum (consonants (phonology (game w))) lc ->
  sorted_enum (vowels (phonology (game w))) lv ->
  exists o, map render (stdout (final (level_1_phonology w))) = map render (stdout w) ++
    [render (OLine (NL ++ "🔤 第一關：音韻系統設定")); render (OLine (str_repeat "-" 40));
     ("目前預設子音： " ++ String.concat ", " lc ++ NL)%string;
     ("目前預設母音： " ++ String.concat ", " lv ++ NL)%string] ++ o.
Proof.
  intros Hc Hv. destruct (level_1_prints_first w) as (o & Ho).
  exists (map render o). rewrite Ho, !map_app. cbn [map render].
  by rewrite (join_sorted_spec _ _ Hc), (join_sorted_spec _ _ Hv).
Qed.
End Screen.

(** Stage 1 entered from the initial state: the default sets, sorted. *)
Lemma stage1_inventory_screen_witness :
  exists o, map render (stdout (final (level_1_phonology (mkWorld init_game [] [] ([] : list nat))))) =
    map render [] ++
    [render (OLine (NL ++ "🔤 第一關：音韻系統設定")); render (OLine (str_repeat "-" 40));
     ("目前預設子音： " ++ String.concat ", " ["b"; "g"; "h"; "k"; "l"; "m"; "n"; "p"; "r"; "s"; "t"]
      ++ NL)%string;
     ("目前預設母音： " ++ String.concat ", " ["a"; "e"; "i"; "o"; "u"] ++ NL)%string] ++ o.
Proof.
  apply stage1_inventory_screen; split_and!; apply (bool_decide_unpack _); vm_compute; exact I.
Defined.

End Output.
