(* ===== verification/Exec.v ===== *)
(** * Symbolic execution of the game

    The machinery the session theorems share: what a transcript shows
    ([words_of] and the like, over the [Out] events), one [runs] rule per
    primitive of [Game] on a world written as a record, the tactic
    [exec_step] that applies them one step at a time (deciding the closed
    tests of the program text by evaluation), and [world_simpl] and
    [words_simpl], which reduce projections of records and transcripts
    without unfolding the strings they hold. *)
From stdpp Require Import gmap.
From S2P Require Import Prelude PyStr PyRandom Phonology Morphology Syntax Vocab Game GameProps.
Import Phonology Morphology Syntax Vocab Game GameProps.

Module Exec.

(** ** What the transcript shows *)
Definition words_of (out : list Out) : list string :=
  omap (fun o => match o with OWord _ w => Some w | _ => None end) out.
Definition sentences_of (out : list Out) : list string :=
  omap (fun o => match o with OSentence _ s => Some s | _ => None end) out.
Definition questions_of (out : list Out) : list string :=
  omap (fun o => match o with OQuestion q => Some q | _ => None end) out.
Definition samples_of (out : list Out) : list (nat * string) :=
  omap (fun o => match o with OSample i s => Some (i, s) | _ => None end) out.

(** Output with no word, sentence, question or showcase line. *)
Definition quiet (out : list Out) : Prop :=
  words_of out = [] /\ sentences_of out = [] /\ questions_of out = [] /\ samples_of out = [].

Lemma quiet_app o1 o2 : quiet o1 -> quiet o2 -> quiet (o1 ++ o2).
Proof.
  unfold quiet, words_of, sentences_of, questions_of, samples_of.
  rewrite !omap_app. intros (->&->&->&->) (->&->&->&->). done.
Qed.

(** ** Symbolic execution

    One rule per primitive, on a world written as a record, so that the
    world stays a record during the execution. *)
Section Rules.
Context {G : Type}.
Implicit Types (gm : Game) (inp : list string) (out : list Out) (g : G).

Lemma runs_print o gm inp out g (P : unit -> World G -> Prop) :
  P tt (mkWorld gm inp (out ++ [o]) g) -> runs (print o) (mkWorld gm inp out g) P.
Proof. intros H. by eapply runs_Ret. Qed.

Lemma runs_read_line l gm inp out g (P : string -> World G -> Prop) :
  P l (mkWorld gm inp out g) -> runs read_line (mkWorld gm (l :: inp) out g) P.
Proof. intros H. by eapply runs_Ret. Qed.

Lemma runs_input p l gm inp out g (P : string -> World G -> Prop) :
  P l (mkWorld gm inp (out ++ [OPrompt p]) g) -> runs (input p) (mkWorld gm (l :: inp) out g) P.
Proof. intros H. by eapply runs_Ret. Qed.

Lemma runs_input_strip p l gm inp out g (P : string -> World G -> Prop) :
  P (PyStr.strip l) (mkWorld gm inp (out ++ [OPrompt p]) g) ->
  runs (input_strip p) (mkWorld gm (l :: inp) out g) P.
Proof. intros H. by eapply runs_Ret. Qed.

Lemma runs_update_game f gm inp out g (P : unit -> World G -> Prop) :
  P tt (mkWorld (f gm) inp out g) -> runs (update_game f) (mkWorld gm inp out g) P.
Proof. intros H. by eapply runs_Ret. Qed.

Lemma runs_gets_game {A} (f : Game -> A) gm inp out g (P : A -> World G -> Prop) :
  P (f gm) (mkWorld gm inp out g) -> runs (gets_game f) (mkWorld gm inp out g) P.
Proof. intros H. by eapply runs_Ret. Qed.

Lemma runs_get_world gm inp out g (P : World G -> World G -> Prop) :
  P (mkWorld gm inp out g) (mkWorld gm inp out g) -> runs get (mkWorld gm inp out g) P.
Proof. intros H. by eapply runs_Ret. Qed.

Lemma runs_vappend_world k x gm inp out g (P : unit -> World G -> Prop) :
  P tt (mkWorld (set_vocab (dd_append k x (vocab gm)) gm) inp out g) ->
  runs (vappend k x) (mkWorld gm inp out g) P.
Proof. intros H. by eapply runs_Ret. Qed.

Lemma runs_vclear_world k gm inp out g (P : unit -> World G -> Prop) :
  P tt (mkWorld (set_vocab (dd_clear k (vocab gm)) gm) inp out g) ->
  runs (vclear k) (mkWorld gm inp out g) P.
Proof. intros H. by eapply runs_Ret. Qed.

Lemma runs_vget_world k gm inp out g (P : list string -> World G -> Prop) :
  (forall m, dd_equiv m (vocab gm) -> P (dd_lookup (vocab gm) k) (mkWorld (set_vocab m gm) inp out g)) ->
  runs (vget k) (mkWorld gm inp out g) P.
Proof. intros H. by apply runs_vget. Qed.

Lemma runs_rand_generate_word_world `{RS : RandomSource G} ph c gm inp out g
    (P : string -> World G -> Prop) :
  consonants ph <> ∅ -> vowels ph <> ∅ -> syllable_patterns ph <> [] ->
  (forall x g', P x (mkWorld gm inp out g')) ->
  runs (rand (generate_word ph c)) (mkWorld gm inp out g) P.
Proof.
  intros Hc Hv Hp HP. apply (runs_lift rng set_rng _ (mkWorld gm inp out g)).
  destruct (generate_word_ok ph c g Hc Hv Hp) as (x & g' & H). exists x, g'.
  split; [exact H | apply HP].
Qed.

Lemma runs_rand_choice_world `{RS : RandomSource G} {A} (l : list A) gm inp out g
    (P : A -> World G -> Prop) :
  l <> [] -> (forall x g', x ∈ l -> P x (mkWorld gm inp out g')) ->
  runs (rand (choice l)) (mkWorld gm inp out g) P.
Proof. intros Hl HP. by apply runs_rand_choice. Qed.

Lemma runs_rand_world {A} (m : st G A) gm inp out g (P : A -> World G -> Prop) :
  runs m g (fun a g' => P a (mkWorld gm inp out g')) -> runs (rand m) (mkWorld gm inp out g) P.
Proof. intros H. exact (runs_lift rng set_rng m (mkWorld gm inp out g) P H). Qed.

(** [input] at the end of the input: the prompt is written, then
    [EOFError] is raised. *)
Lemma raises_input_strip_eof p gm out g (Q : World G -> Prop) :
  Q (mkWorld gm [] (out ++ [OPrompt p]) g) -> raises (input_strip p) (mkWorld gm [] out g) EOFError Q.
Proof. intros H. by eexists. Qed.
End Rules.

(** Decides a closed boolean test of the program text. *)
Ltac eval_test :=
  match goal with
  | |- runs (if ?b then _ else _) _ _ =>
      let v := eval vm_compute in b in
      lazymatch v with
      | true => change b with true; cbv iota
      | false => change b with false; cbv iota
      end
  end.

Ltac exec_step :=
  first
    [ progress cbv beta iota
    | eval_test
    | lazymatch goal with
      | |- runs (bind _ _) _ _ => apply runs_bind
      | |- runs (ret _) _ _ => apply runs_ret
      | |- runs (print _) _ _ => apply runs_print
      | |- runs (input_strip _) _ _ => apply runs_input_strip
      | |- runs (input _) _ _ => apply runs_input
      | |- runs read_line _ _ => apply runs_read_line
      | |- runs (update_game _) _ _ => apply runs_update_game
      | |- runs (gets_game _) _ _ => apply runs_gets_game
      | |- runs get _ _ => apply runs_get_world
      | |- runs (vappend _ _) _ _ => apply runs_vappend_world
      | |- runs (vclear _) _ _ => apply runs_vclear_world
      | |- runs (rand (generate_word _ _)) _ _ =>
          apply runs_rand_generate_word_world; [solve [simpl; auto]..|intros ? ?]
      end
    | progress cbn [loop_fuel for_each for_range seq length Nat.add stdin zip samples] ].

(** One step of a computation that is to raise: a [bind] whose left side
    reads from an exhausted input raises there, any other [bind] runs its
    left side with [exec_step]. *)
Ltac raise_step :=
  first
    [ progress cbv beta iota
    | match goal with
      | |- raises (if ?b then _ else _) _ _ _ =>
          let v := eval vm_compute in b in
          lazymatch v with
          | true => change b with true; cbv iota
          | false => change b with false; cbv iota
          end
      end
    | lazymatch goal with
      | |- raises (input_strip _) (mkWorld _ [] _ _) _ _ => apply raises_input_strip_eof
      | |- raises (bind (input_strip _) _) (mkWorld _ [] _ _) _ _ => apply raises_bind_l
      | |- raises (bind _ _) _ _ _ => apply raises_bind_r
      end
    | exec_step ].

(** Reduces the projections of worlds and games written as records. *)
Ltac world_simpl :=
  cbn [game stdin stdout rng vocab phonology morphology syntax
       set_vocab set_phonology set_morphology set_syntax] in *.

(** The phonology inventory a stage generates from is non-empty. *)
Definition inventory_ok (ph : PhonologySystem) : Prop :=
  consonants ph <> ∅ /\ vowels ph <> ∅ /\ syllable_patterns ph <> [].

Lemma words_of_app o1 o2 : words_of (o1 ++ o2) = words_of o1 ++ words_of o2.
Proof. apply omap_app. Qed.
Lemma sentences_of_app o1 o2 : sentences_of (o1 ++ o2) = sentences_of o1 ++ sentences_of o2.
Proof. apply omap_app. Qed.
Lemma questions_of_app o1 o2 : questions_of (o1 ++ o2) = questions_of o1 ++ questions_of o2.
Proof. apply omap_app. Qed.
Lemma samples_of_app o1 o2 : samples_of (o1 ++ o2) = samples_of o1 ++ samples_of o2.
Proof. apply omap_app. Qed.

Lemma words_of_cons o out :
  words_of (o :: out) = match o with OWord _ w => [w] | _ => [] end ++ words_of out.
Proof. by destruct o. Qed.
Lemma words_of_nil : words_of [] = [].
Proof. reflexivity. Qed.

#[export] Hint Rewrite words_of_app sentences_of_app questions_of_app samples_of_app : py_rw.

(** [for x in xs: print(f(x))] *)
Lemma runs_for_each_print {G A} (f : A -> Out) (xs : list A) gm inp out (g : G)
    (P : unit -> World G -> Prop) :
  P tt (mkWorld gm inp (out ++ map f xs) g) ->
  runs (for_each xs (fun x => print (f x))) (mkWorld gm inp out g) P.
Proof.
  revert out. induction xs as [|x xs IH]; intros out HP; simpl.
  - apply runs_ret. by rewrite app_nil_r in HP.
  - apply runs_bind, runs_print, IH. by rewrite <- app_assoc.
Qed.

Lemma quiet_map {A} (f : A -> Out) (xs : list A) : (forall x, quiet [f x]) -> quiet (map f xs).
Proof.
  intros Hf. induction xs as [|x xs IH]; [repeat split|]. apply (quiet_app [f x]); auto.
Qed.

(** Closes [exists o, stdout = out ++ o /\ quiet o] on a concrete
    transcript. *)
Ltac finish_out :=
  eexists; split; [rewrite <- ?app_assoc; reflexivity | repeat split].

(** Reduces the words of a transcript written as a list of events. *)
Ltac words_simpl :=
  autorewrite with py_rw; rewrite ?words_of_cons, ?words_of_nil; cbv iota beta; cbn [app];
  rewrite ?app_nil_r.

End Exec.
