(* ===== verification/Stages.v ===== *)
(** * The stages as a state machine

    Spec section 5 describes the game as a strictly linear machine
    [Welcome → PhonologyStage → MorphologyStage → SyntaxStage → Showcase]
    with no backward transition. The program has no stage variable: a stage
    is entered by calling its method from [run_game] (lines 174-179), and
    the entry is visible in the output as the stage's title line (lines
    60, 67, 99, 140, 161). This file gives the machine ([Stage],
    [stage_step], its traces [stage_path]), reads the stages a transcript
    entered off its title lines ([stages_of]), and proves with the program
    logic [Emits.emits] that every run, whatever its input, random draws
    and outcome, prints a trace of the machine, and a complete one when it
    returns. The same logic, through the projection of the showcase lines,
    proves that the showcase is static (spec section 5: "not generated
    from session state"). *)
From stdpp Require Import gmap.
From S2P Require Import Prelude PyStr PyRandom Phonology Morphology Syntax Vocab Game Emits Exec.
Import Phonology Morphology Syntax Vocab Game Emits Exec.

Module Stages.

(** ** The machine of spec section 5 *)
Inductive Stage := Welcome | PhonologyStage | MorphologyStage | SyntaxStage | Showcase.

#[export] Instance Stage_eq_dec : EqDecision Stage.
Proof. solve_decision. Defined.

(** One transition: to the next stage, never back, never skipping one. *)
Inductive stage_step : Stage -> Stage -> Prop :=
| step_phonology : stage_step Welcome PhonologyStage
| step_morphology : stage_step PhonologyStage MorphologyStage
| step_syntax : stage_step MorphologyStage SyntaxStage
| step_showcase : stage_step SyntaxStage Showcase.

(** [chain s l]: from [s], the machine enters the stages [l] in turn. *)
Inductive chain : Stage -> list Stage -> Prop :=
| chain_nil s : chain s []
| chain_cons s s' l : stage_step s s' -> chain s' l -> chain s (s' :: l).

(** The sequences of stages the machine enters from its start. *)
Inductive stage_path : list Stage -> Prop :=
| path_nil : stage_path []
| path_start l : chain Welcome l -> stage_path (Welcome :: l).

Definition all_stages : list Stage :=
  [Welcome; PhonologyStage; MorphologyStage; SyntaxStage; Showcase].

(** ** Stages in the transcript *)

(** The title line each stage prints when it is entered. *)
Definition banner (s : Stage) : string :=
  match s with
  | Welcome => "🌄 太魯閣語語言創造遊戲 🌄"
  | PhonologyStage => NL ++ "🔤 第一關：音韻系統設定"
  | MorphologyStage => NL ++ "🔧 第二關：構詞系統設定"
  | SyntaxStage => NL ++ "📝 第三關：句法系統設定"
  | Showcase => NL ++ "🌟 最終展示 🌟"
  end%string.

(** The stage a printed event announces, if it is a title line. *)
Definition banner_of (o : Out) : option Stage :=
  match o with
  | OLine t => List.find (fun s => String.eqb (banner s) t) all_stages
  | _ => None
  end.

Definition stages_of (out : list Out) : list Stage := omap banner_of out.

(** The showcase lines of lines 164-172, [enumerate(samples, 1)]. *)
Definition sample_of (o : Out) : option (nat * string) :=
  match o with OSample i s => Some (i, s) | _ => None end.

(** The showcase the specification fixes (section 8, end-to-end
    scenario): six authored sentences, verbatim and in this order,
    numbered from 1. *)
Definition showcase_lines : list (nat * string) :=
  [(1, "mita laqi bubu"); (2, "miying Tama"); (3, "ma-lukus laqi");
   (4, "pita qhuni idaw"); (5, "s-malu tama laqi"); (6, "miyax bubu qhuni")].

(** The number in front of a numbered line: a generated word (line 94), a
    sample sentence (line 156) or a showcase line (line 172). *)
Definition number_of (o : Out) : option nat :=
  match o with
  | OWord i _ | OSentence i _ | OSample i _ => Some i
  | _ => None
  end.

Definition numbers_of (out : list Out) : list nat := omap number_of out.

(** The numbering a complete run prints: words 1-5, sentences 1-3, then
    the showcase 1-6. *)
Definition numbering : list nat := [1; 2; 3; 4; 5] ++ [1; 2; 3] ++ [1; 2; 3; 4; 5; 6].

(** ** Lemmas on the machine *)

Lemma stages_of_app o1 o2 : stages_of (o1 ++ o2) = stages_of o1 ++ stages_of o2.
Proof. apply omap_app. Qed.

(** Every beginning of the complete run is a trace of the machine. *)
Lemma prefix_all_stages_path l : l `prefix_of` all_stages -> stage_path l.
Proof.
  intros [k Hk]. unfold all_stages in Hk.
  destruct l as [|a [|b [|c [|d [|e [|f l]]]]]]; simplify_eq/=; repeat econstructor.
Qed.

(** ** Every run is a trace of the machine *)
Section Run.
Context `{RS : RandomSource G}.

(** What [run_game] prints, seen through [proj], is what [main] prints
    from the initial state. *)
Lemma emits_main {X} (proj : Out -> option X) B lines (g : G) :
  emits proj run_game B ->
  omap proj (stdout (final (main lines g))) `prefix_of` B /\
  (forall w', main lines g = Ret tt w' -> omap proj (stdout w') = B).
Proof.
  intros H. destruct (H (mkWorld init_game lines [] g)) as (o & Ho & Hp & Hr).
  unfold main. rewrite Ho. split; [done|].
  intros w' E. rewrite E in Ho. cbn [final stdout app] in Ho. rewrite Ho. eauto.
Qed.

Lemma emits_phonology_step : emits banner_of (phonology_step (G:=G)) [].
Proof. unfold phonology_step. solve_silent. Qed.

Lemma emits_morphology_step : emits banner_of (morphology_step (G:=G)) [].
Proof. unfold morphology_step. solve_silent. Qed.

#[local] Hint Resolve emits_phonology_step emits_morphology_step : emits.

Lemma emits_display_welcome : emits banner_of (display_welcome (G:=G)) [Welcome].
Proof. unfold display_welcome, input. solve_one. Qed.

Lemma emits_level_1 : emits banner_of (level_1_phonology (G:=G)) [PhonologyStage].
Proof. unfold level_1_phonology, for_range, generate_sample_word, vappend, input. solve_one. Qed.

Lemma emits_level_2 : emits banner_of (level_2_morphology (G:=G)) [MorphologyStage].
Proof. unfold level_2_morphology, reclassify, demo, vappend, vclear, input. solve_one. Qed.

Lemma emits_level_3 : emits banner_of (level_3_syntax (G:=G)) [SyntaxStage].
Proof.
  unfold level_3_syntax, for_range, sample_sentence, pick, input, input_strip. solve_one.
Qed.

Lemma emits_final_showcase : emits banner_of (final_showcase (G:=G)) [Showcase].
Proof. unfold final_showcase. solve_one. Qed.

Lemma emits_run_game : emits banner_of (run_game (G:=G)) all_stages.
Proof.
  unfold run_game.
  apply (emits_bind banner_of _ _ [Welcome]); [apply emits_display_welcome | intros].
  apply (emits_bind banner_of _ _ [PhonologyStage]); [apply emits_level_1 | intros].
  apply (emits_bind banner_of _ _ [MorphologyStage]); [apply emits_level_2 | intros].
  apply (emits_bind banner_of _ _ [SyntaxStage] [Showcase]); [apply emits_level_3 | intros].
  apply emits_final_showcase.
Qed.

(** C15: the stages of spec section 5 form a strictly linear machine: on
    any input and any random draws, whether the run returns, raises or
    not, the title lines it prints announce a trace of [stage_step] from
    [Welcome] (each stage at most once, in order, none skipped, none
    entered again), and a run that returns has entered every stage, from
    [Welcome] to [Showcase]. *)
Theorem stages_linear lines (g : G) :
  stage_path (stages_of (stdout (final (main lines g)))) /\
  (forall w', main lines g = Ret tt w' -> stages_of (stdout w') = all_stages).
Proof.
  destruct (emits_main banner_of all_stages lines g emits_run_game) as [Hp Hr].
  split; [by apply prefix_all_stages_path | exact Hr].
Qed.
(** ** The showcase is static *)

Lemma samples_final_showcase : emits sample_of (final_showcase (G:=G)) showcase_lines.
Proof.
  unfold final_showcase. do 3 (apply emits_bind_r; [solve_silent | intros]).
  replace showcase_lines with (map (fun x => x) (zip (seq 1 (length samples)) samples))
    by reflexivity.
  apply emits_for_each_map. intros [i s]. by apply emits_print_one.
Qed.

Lemma samples_run_game : emits sample_of (run_game (G:=G)) showcase_lines.
Proof.
  unfold run_game, display_welcome, level_1_phonology, level_2_morphology, level_3_syntax,
    phonology_step, morphology_step, for_range, generate_sample_word, reclassify, demo,
    sample_sentence, pick, vappend, vclear, input, input_strip.
  do 4 (apply emits_bind_r; [solve [solve_silent] | intros]).
  apply samples_final_showcase.
Qed.

(** C16: the showcase is static (spec section 5: authored exemplars, "not
    generated from session state"): on any input and any random draws,
    the showcase lines a run prints are a prefix of the six fixed
    sentences numbered 1 to 6, and a run that returns prints all six,
    verbatim and in order, whatever the player built. *)
Theorem showcase_static lines (g : G) :
  samples_of (stdout (final (main lines g))) `prefix_of` showcase_lines /\
  (forall w', main lines g = Ret tt w' -> samples_of (stdout w') = showcase_lines).
Proof. exact (emits_main sample_of showcase_lines lines g samples_run_game). Qed.

(** ** The numbered lines *)

Lemma numbers_level_1 : emits number_of (level_1_phonology (G:=G)) [1; 2; 3; 4; 5].
Proof.
  unfold level_1_phonology, phonology_step, input.
  repeat (apply emits_bind_r; [solve [solve_silent] | intros]).
  apply emits_bind_l; [|solve [solve_silent]].
  change [1; 2; 3; 4; 5] with (map (fun i => i + 1) (seq 0 5)). apply emits_for_each_map.
  intros i. unfold generate_sample_word, vappend. solve_one.
Qed.

Lemma numbers_level_3 : emits number_of (level_3_syntax (G:=G)) [1; 2; 3].
Proof.
  unfold level_3_syntax, input, input_strip.
  repeat (apply emits_bind_r; [solve [solve_silent] | intros]).
  apply emits_bind_l; [|solve [solve_silent]].
  change [1; 2; 3] with (map (fun i => i + 1) (seq 0 3)). apply emits_for_each_map.
  intros i. unfold sample_sentence, pick. solve_one.
Qed.

Lemma numbers_final_showcase : emits number_of (final_showcase (G:=G)) [1; 2; 3; 4; 5; 6].
Proof.
  unfold final_showcase. do 3 (apply emits_bind_r; [solve_silent | intros]).
  change [1; 2; 3; 4; 5; 6] with (map fst (zip (seq 1 (length samples)) samples)).
  apply emits_for_each_map. intros [i s]. by apply emits_print_one.
Qed.

Lemma numbers_run_game : emits number_of (run_game (G:=G)) numbering.
Proof.
  unfold run_game, numbering.
  apply emits_bind_r; [unfold display_welcome, input; solve_silent | intros].
  apply (emits_bind _ _ _ [1; 2; 3; 4; 5]); [apply numbers_level_1 | intros].
  apply emits_bind_r;
    [unfold level_2_morphology, morphology_step, reclassify, demo, vappend, vclear, input;
     solve_silent | intros].
  apply (emits_bind _ _ _ [1; 2; 3]); [apply numbers_level_3 | intros].
  apply numbers_final_showcase.
Qed.

(** C17: the numbering of the numbered lines (lines 92-94, 151-156 and
    171-172): on any input and any random draws, the numbers in front of
    the generated words, the sample sentences and the showcase lines are,
    in the order printed, a prefix of 1-5, 1-3, 1-6 ([range(5)] and
    [range(3)] printed as [i+1], [enumerate(samples, 1)]), and all of it
    when the run returns. *)
Theorem line_numbers lines (g : G) :
  numbers_of (stdout (final (main lines g))) `prefix_of` numbering /\
  (forall w', main lines g = Ret tt w' -> numbers_of (stdout w') = numbering).
Proof. exact (emits_main number_of numbering lines g numbers_run_game). Qed.
End Run.

Lemma stages_linear_witness :
  let w' := final (main (G:=list nat) [""; ""; ""; ""; ""; ""; ""; ""] []) in
  stages_of (stdout w') = all_stages.
Proof.
  intros w'. apply (proj2 (stages_linear [""; ""; ""; ""; ""; ""; ""; ""] [])).
  vm_compute. reflexivity.
Defined.

(** A session with edits in both menus and both settings changed. *)
Lemma showcase_static_witness :
  let w' := final (main (G:=list nat) ["x"; "1"; "q"; ""; ""; "1"; "plural"; "suffix"; "-na";
                                        "pl"; ""; ""; "SVO"; "ma"; ""] []) in
  samples_of (stdout w') = showcase_lines.
Proof.
  intros w'. apply (proj2 (showcase_static ["x"; "1"; "q"; ""; ""; "1"; "plural"; "suffix"; "-na";
                                            "pl"; ""; ""; "SVO"; "ma"; ""] [])).
  vm_compute. reflexivity.
Defined.

Lemma line_numbers_witness :
  let w' := final (main (G:=list nat) [""; ""; ""; ""; ""; ""; ""; ""] []) in
  numbers_of (stdout w') = numbering.
Proof.
  intros w'. apply (proj2 (line_numbers [""; ""; ""; ""; ""; ""; ""; ""] [])).
  vm_compute. reflexivity.
Defined.

End Stages.
