(* ===== verification/Menus.v ===== *)
(** * The two menus as command interpreters

    The [while True] menus of [level_1_phonology] (lines 73-89) and
    [level_2_morphology] (lines 103-124) read a choice and its arguments,
    apply one edit, and loop until a line that is not a menu code. This
    file gives the player's commands an abstract syntax ([PhonCmd],
    [MorphCmd]), the input lines that encode them ([phon_lines],
    [morph_lines]) and their abstract effect ([apply_phon],
    [apply_morph], the operations of spec 4.1 and 4.2), and proves that
    each menu loop, on the lines of any command sequence followed by an
    exit line, leaves after reading exactly those lines with the state the
    fold of the commands gives. The random source is not touched and no
    word is printed. When the input ends after the lines of some commands
    and part of one more, the loop raises [EOFError] with the fold of the
    complete commands ([raises_menu]). *)
From stdpp Require Import gmap.
From S2P Require Import Prelude PyStr PyRandom Phonology Morphology Syntax Vocab Game GameProps Exec.
Import Phonology Morphology Syntax Vocab Game GameProps Exec.

Module Menus.

(** ** Stage 1: the inventory menu *)
Inductive PhonCmd :=
| AddConsonant (c : string)
| RemoveConsonant (c : string)
| AddVowel (v : string)
| RemoveVowel (v : string).

(** The lines the player types for a command: the menu code, then the
    grapheme. *)
Definition phon_lines (cmd : PhonCmd) : list string :=
  match cmd with
  | AddConsonant c => ["1"; c]
  | RemoveConsonant c => ["2"; c]
  | AddVowel v => ["3"; v]
  | RemoveVowel v => ["4"; v]
  end.

(** The effect of a command (spec 4.1): the grapheme is stripped; adding
    the empty string changes nothing, and removing an absent grapheme
    changes nothing either ([∖] of an absent element). *)
Definition apply_phon (ph : PhonologySystem) (cmd : PhonCmd) : PhonologySystem :=
  match cmd with
  | AddConsonant c =>
      if (PyStr.strip c =? "")%string then ph else add_consonant (PyStr.strip c) ph
  | RemoveConsonant c => remove_consonant (PyStr.strip c) ph
  | AddVowel v =>
      if (PyStr.strip v =? "")%string then ph else add_vowel (PyStr.strip v) ph
  | RemoveVowel v => remove_vowel (PyStr.strip v) ph
  end.

(** A line that leaves the menu: its stripped text is no menu code. *)
Definition phon_exit (x : string) : bool :=
  negb (bool_decide (PyStr.strip x ∈ ["1"; "2"; "3"; "4"])).

Definition cmd_lines {C} (lines : C -> list string) (cmds : list C) : list string :=
  mjoin (map lines cmds).

(** ** Lemmas *)

Lemma remove_consonant_absent c ph : c ∉ consonants ph -> remove_consonant c ph = ph.
Proof.
  intros Hc. destruct ph as [cs vs ps]. unfold remove_consonant. simpl in *. f_equal.
  by apply difference_disjoint_L, disjoint_singleton_r.
Qed.

Lemma remove_vowel_absent v ph : v ∉ vowels ph -> remove_vowel v ph = ph.
Proof.
  intros Hv. destruct ph as [cs vs ps]. unfold remove_vowel. simpl in *. f_equal.
  by apply difference_disjoint_L, disjoint_singleton_r.
Qed.

Lemma set_phonology_same gm : set_phonology (phonology gm) gm = gm.
Proof. by destruct gm. Qed.

Lemma string_eqb_neq_in (s x : string) (l : list string) :
  x ∈ l -> s ∉ l -> (s =? x)%string = false.
Proof. intros Hx Hs. apply String.eqb_neq. intros ->. done. Qed.

Lemma phon_exit_spec x : phon_exit x = true ->
  (PyStr.strip x =? "1")%string = false /\ (PyStr.strip x =? "2")%string = false /\
  (PyStr.strip x =? "3")%string = false /\ (PyStr.strip x =? "4")%string = false.
Proof.
  unfold phon_exit. intros H. apply negb_true_iff, bool_decide_eq_false in H.
  split_and!; apply (string_eqb_neq_in _ _ ["1"; "2"; "3"; "4"]); by repeat constructor.
Qed.

(** No command edits the syllable patterns. *)
Lemma apply_phon_patterns ph cmds :
  syllable_patterns (foldl apply_phon ph cmds) = syllable_patterns ph.
Proof.
  revert ph. induction cmds as [|[c|c|v|v] cmds IH]; intros ph; simpl; [done|..];
    rewrite IH; [destruct (PyStr.strip c =? "")%string | | destruct (PyStr.strip v =? "")%string |];
    done.
Qed.

Lemma cmd_lines_cons {C} (lines : C -> list string) c cmds :
  cmd_lines lines (c :: cmds) = lines c ++ cmd_lines lines cmds.
Proof. reflexivity. Qed.

Lemma cmd_lines_length {C} (lines : C -> list string) cmds :
  (forall c, 1 <= length (lines c)) -> length cmds <= length (cmd_lines lines cmds).
Proof.
  intros H. induction cmds as [|c cmds IH]; [simpl; lia|].
  rewrite cmd_lines_cons, length_app. simpl. specialize (H c). lia.
Qed.

(** ** A menu loop refines the fold of its commands

    The argument shared by both menus, in the style of a simulation
    diagram: if one pass on the lines of a command applies [upd] and
    continues, and one pass on an exit line applies [fin] and breaks,
    then the loop on the lines of a command list and an exit line reads
    exactly those lines and applies the fold of [upd], then [fin]. *)
Section MenuLoop.
Context {G C : Type} (body : st (World G) bool) (lines : C -> list string).
Variable exit : string -> bool.
Variables (upd : C -> Game -> Game) (fin : Game -> Game).

Definition menu_post (rest : list string) (out : list Out) (g : G) (gm' : Game)
    (w' : World G) : Prop :=
  stdin w' = rest /\ rng w' = g /\ game w' = gm' /\ exists o, stdout w' = out ++ o /\ quiet o.

Hypothesis body_cmd : forall cmd gm inp out g,
  runs body (mkWorld gm (lines cmd ++ inp) out g)
    (fun b w' => b = true /\ menu_post inp out g (upd cmd gm) w').
Hypothesis body_exit : forall x gm inp out g, exit x = true ->
  runs body (mkWorld gm (x :: inp) out g)
    (fun b w' => b = false /\ menu_post inp out g (fin gm) w').
Hypothesis lines_nonempty : forall cmd, 1 <= length (lines cmd).

Definition fold_cmds (gm : Game) (cmds : list C) : Game := foldl (fun gm c => upd c gm) gm cmds.

(** Two passes compose: the second starts where the first left off. *)
Lemma menu_post_app inp out g gm1 (w1 : World G) rest gm' w' :
  menu_post inp out g gm1 w1 -> menu_post rest (stdout w1) (rng w1) gm' w' ->
  menu_post rest out g gm' w'.
Proof.
  intros (_ & Hr & _ & o & Ho & Hq) (Hi' & Hr' & Hg' & o' & Ho' & Hq').
  split_and!; [done | congruence | done |].
  exists (o ++ o'). rewrite Ho', Ho, app_assoc. split; [done | by apply quiet_app].
Qed.

Lemma runs_menu_loop cmds x rest gm out g n :
  exit x = true -> length cmds < n ->
  runs (loop_fuel n body) (mkWorld gm (cmd_lines lines cmds ++ x :: rest) out g)
    (fun _ => menu_post rest out g (fin (fold_cmds gm cmds))).
Proof.
  intros Hx. revert gm out n.
  induction cmds as [|cmd cmds IH]; intros gm out [|n] Hn; simpl in Hn; try lia; simpl.
  - apply runs_bind. eapply runs_mono; [|by apply body_exit].
    intros b w' (-> & Hpost). by apply runs_ret.
  - apply runs_bind. rewrite cmd_lines_cons, <- app_assoc.
    eapply runs_mono; [|apply body_cmd].
    intros b [gm1 inp1 out1 g1] (-> & Hpost). pose proof Hpost as (Hi & Hr & Hg & _).
    world_simpl. subst.
    eapply runs_mono; [|apply IH; lia]. intros a w' Hpost'. by eapply menu_post_app.
Qed.

(** The input ends inside the menu, after the lines of [cmds] and the
    first [k] lines of one more command: when a pass on such a prefix
    raises [EOFError] leaving the game as it was, the loop raises
    [EOFError] with the edits of [cmds] applied, and [fin] not. *)
Section Eof.
Hypothesis body_partial : forall cmd k gm out g, k < length (lines cmd) ->
  raises body (mkWorld gm (take k (lines cmd)) out g) EOFError (menu_post [] out g gm).

Lemma raises_menu_loop cmds cmd k gm out g n :
  k < length (lines cmd) -> length cmds < n ->
  raises (loop_fuel n body) (mkWorld gm (cmd_lines lines cmds ++ take k (lines cmd)) out g)
    EOFError (menu_post [] out g (fold_cmds gm cmds)).
Proof.
  intros Hk. revert gm out n.
  induction cmds as [|c cmds IH]; intros gm out [|n] Hn; simpl in Hn; try lia; simpl.
  - apply raises_bind_l. by apply body_partial.
  - apply raises_bind_r. rewrite cmd_lines_cons, <- app_assoc.
    eapply runs_mono; [|apply body_cmd].
    intros b [gm1 inp1 out1 g1] (-> & Hpost). pose proof Hpost as (Hi & Hr & Hg & _).
    world_simpl. subst. destruct (IH (upd c gm) out1 n ltac:(lia)) as (w' & H & Hpost').
    exists w'. split; [done | by eapply menu_post_app].
Qed.

Lemma raises_menu cmds cmd k gm out g :
  k < length (lines cmd) ->
  raises (while_true body) (mkWorld gm (cmd_lines lines cmds ++ take k (lines cmd)) out g)
    EOFError (menu_post [] out g (fold_cmds gm cmds)).
Proof.
  intros Hk. apply raises_bind_r, runs_get_world. cbn [stdin]. apply raises_menu_loop; [done|].
  pose proof (cmd_lines_length lines cmds lines_nonempty). rewrite length_app. lia.
Qed.
End Eof.

(** The [while True] of the menu: its bound, one more than the number of
    input lines, exceeds the number of commands. *)
Lemma runs_menu cmds x rest gm out g :
  exit x = true ->
  runs (while_true body) (mkWorld gm (cmd_lines lines cmds ++ x :: rest) out g)
    (fun _ => menu_post rest out g (fin (fold_cmds gm cmds))).
Proof.
  intros Hx. apply runs_bind, runs_get_world. cbn [stdin]. apply runs_menu_loop; [done|].
  pose proof (cmd_lines_length lines cmds lines_nonempty). rewrite length_app. simpl. lia.
Qed.
End MenuLoop.

Section Stage1.
Context `{RS : RandomSource G}.
Implicit Types (gm : Game) (inp : list string) (out : list Out) (g : G).

(** One pass of the menu on the lines of a command. *)
Lemma runs_phonology_step_cmd cmd gm inp out g :
  runs phonology_step (mkWorld gm (phon_lines cmd ++ inp) out g)
    (fun b w' => b = true /\ menu_post inp out g (set_phonology (apply_phon (phonology gm) cmd) gm) w').
Proof.
  unfold phonology_step.
  destruct cmd as [c|c|v|v]; simpl; repeat exec_step;
    [ destruct (PyStr.strip c =? "")%string
    | case_bool_decide as Hin; [|rewrite (remove_consonant_absent _ _ Hin)]
    | destruct (PyStr.strip v =? "")%string
    | case_bool_decide as Hin; [|rewrite (remove_vowel_absent _ _ Hin)] ];
    repeat exec_step; unfold menu_post; world_simpl; rewrite ?set_phonology_same;
    (split_and!; [done..| finish_out]).
Qed.

(** The pass that reads a line that is no menu code: [break]. *)
Lemma runs_phonology_step_exit x gm inp out g :
  phon_exit x = true ->
  runs phonology_step (mkWorld gm (x :: inp) out g)
    (fun b w' => b = false /\ menu_post inp out g gm w').
Proof.
  intros Hx. destruct (phon_exit_spec x Hx) as (H1 & H2 & H3 & H4).
  unfold phonology_step. repeat exec_step. rewrite H1, H2, H3, H4. cbv iota.
  repeat exec_step. unfold menu_post. world_simpl. split_and!; [done.. | finish_out].
Qed.

Lemma set_phonology_twice ph1 ph2 gm : set_phonology ph1 (set_phonology ph2 gm) = set_phonology ph1 gm.
Proof. reflexivity. Qed.

Lemma phon_lines_length cmd : 1 <= length (phon_lines cmd).
Proof. destruct cmd; simpl; lia. Qed.

Definition phon_upd (cmd : PhonCmd) (gm : Game) : Game :=
  set_phonology (apply_phon (phonology gm) cmd) gm.

Lemma fold_phon cmds gm :
  fold_cmds phon_upd gm cmds = set_phonology (foldl apply_phon (phonology gm) cmds) gm.
Proof.
  revert gm. induction cmds as [|cmd cmds IH]; intros gm; simpl; [by rewrite set_phonology_same|].
  by rewrite IH.
Qed.

Lemma runs_phonology_menu cmds x rest gm out g :
  phon_exit x = true ->
  runs (while_true phonology_step) (mkWorld gm (cmd_lines phon_lines cmds ++ x :: rest) out g)
    (fun _ => menu_post rest out g (set_phonology (foldl apply_phon (phonology gm) cmds) gm)).
Proof.
  intros Hx. rewrite <- fold_phon.
  apply (runs_menu phonology_step phon_lines phon_exit phon_upd (fun gm => gm));
    auto using runs_phonology_step_cmd, runs_phonology_step_exit, phon_lines_length.
Qed.

(** A pass on the first lines of a command only: the menu code read, the
    grapheme not, [EOFError] and no edit. *)
Lemma raises_phonology_step_partial cmd k gm out g :
  k < length (phon_lines cmd) ->
  raises phonology_step (mkWorld gm (take k (phon_lines cmd)) out g) EOFError (menu_post [] out g gm).
Proof.
  intros Hk. unfold phonology_step.
  destruct cmd, k as [|[|k]]; simpl in *; try lia; repeat raise_step.
  all: unfold menu_post; world_simpl; split_and!; [done.. | finish_out].
Qed.

Lemma raises_phonology_menu cmds cmd k gm out g :
  k < length (phon_lines cmd) ->
  raises (while_true phonology_step)
    (mkWorld gm (cmd_lines phon_lines cmds ++ take k (phon_lines cmd)) out g)
    EOFError (menu_post [] out g (set_phonology (foldl apply_phon (phonology gm) cmds) gm)).
Proof.
  intros Hk. rewrite <- fold_phon.
  apply (raises_menu phonology_step phon_lines phon_upd);
    auto using runs_phonology_step_cmd, raises_phonology_step_partial, phon_lines_length.
Qed.
End Stage1.

(** ** Stage 2: the rule menu *)
Inductive MorphCmd :=
| AddRule (n t m d : string)
| ListRules.

(** The lines the player types: the menu code, then for a new rule its
    name, type, marker and meaning (lines 108-111). *)
Definition morph_lines (cmd : MorphCmd) : list string :=
  match cmd with
  | AddRule n t m d => ["1"; n; t; m; d]
  | ListRules => ["2"]
  end.

(** The effect of a command on the rule table (spec 4.2): the four fields
    are stripped and the rule is appended; listing changes nothing. *)
Definition apply_morph (ms : MorphologySystem) (cmd : MorphCmd) : MorphologySystem :=
  match cmd with
  | AddRule n t m d =>
      add_rule (PyStr.strip n) (PyStr.strip t) (PyStr.strip m) (PyStr.strip d) ms
  | ListRules => ms
  end.

Definition morph_exit (x : string) : bool := negb (bool_decide (PyStr.strip x ∈ ["1"; "2"])).

Lemma morph_exit_spec x : morph_exit x = true ->
  (PyStr.strip x =? "1")%string = false /\ (PyStr.strip x =? "2")%string = false.
Proof.
  unfold morph_exit. intros H. apply negb_true_iff, bool_decide_eq_false in H.
  split_and!; apply (string_eqb_neq_in _ _ ["1"; "2"]); by repeat constructor.
Qed.

Lemma morph_lines_length cmd : 1 <= length (morph_lines cmd).
Proof. destruct cmd; simpl; lia. Qed.

Lemma set_morphology_same gm : set_morphology (morphology gm) gm = gm.
Proof. by destruct gm. Qed.

Definition morph_upd (cmd : MorphCmd) (gm : Game) : Game :=
  set_morphology (apply_morph (morphology gm) cmd) gm.

Definition morph_fin (gm : Game) : Game := set_morphology (seed_default_rules (morphology gm)) gm.

Lemma fold_morph cmds gm :
  fold_cmds morph_upd gm cmds = set_morphology (foldl apply_morph (morphology gm) cmds) gm.
Proof.
  revert gm. induction cmds as [|cmd cmds IH]; intros gm; simpl; [by rewrite set_morphology_same|].
  by rewrite IH.
Qed.

Section Stage2.
Context `{RS : RandomSource G}.
Implicit Types (gm : Game) (inp : list string) (out : list Out) (g : G).

Lemma runs_morphology_step_cmd cmd gm inp out g :
  runs morphology_step (mkWorld gm (morph_lines cmd ++ inp) out g)
    (fun b w' => b = true /\ menu_post inp out g (morph_upd cmd gm) w').
Proof.
  unfold morphology_step, morph_upd. destruct cmd as [n t m d|]; simpl; repeat exec_step.
  - unfold menu_post. world_simpl. split_and!; [done.. | finish_out].
  - destruct (rules (morphology gm)) as [|r rs] eqn:E; repeat exec_step.
    + unfold menu_post. world_simpl. rewrite set_morphology_same. split_and!; [done.. | finish_out].
    + apply runs_for_each_print. repeat exec_step. unfold menu_post. world_simpl.
      rewrite set_morphology_same. split_and!; [done..|].
      eexists. split; [rewrite <- !app_assoc; reflexivity|].
      repeat apply quiet_app; first [apply quiet_map; intros; repeat split | repeat split].
Qed.

Lemma runs_morphology_step_exit x gm inp out g :
  morph_exit x = true ->
  runs morphology_step (mkWorld gm (x :: inp) out g)
    (fun b w' => b = false /\ menu_post inp out g (morph_fin gm) w').
Proof.
  intros Hx. destruct (morph_exit_spec x Hx) as (H1 & H2).
  unfold morphology_step. repeat exec_step. rewrite H1, H2. cbv iota.
  repeat exec_step. unfold menu_post. world_simpl. split_and!; [done.. | finish_out].
Qed.

(** The stage-2 menu, exit pass included: the seeding of lines 120-123
    applies to the table the commands built. *)
Lemma runs_morphology_menu cmds x rest gm out g :
  morph_exit x = true ->
  runs (while_true morphology_step) (mkWorld gm (cmd_lines morph_lines cmds ++ x :: rest) out g)
    (fun _ => menu_post rest out g
       (set_morphology (seed_default_rules (foldl apply_morph (morphology gm) cmds)) gm)).
Proof.
  intros Hx.
  assert (set_morphology (seed_default_rules (foldl apply_morph (morphology gm) cmds)) gm =
          morph_fin (fold_cmds morph_upd gm cmds)) as ->.
  { by rewrite fold_morph. }
  apply (runs_menu morphology_step morph_lines morph_exit morph_upd morph_fin);
    auto using runs_morphology_step_cmd, runs_morphology_step_exit, morph_lines_length.
Qed.

(** A pass on the first lines of a command only: the fields read so far
    are dropped, [EOFError] and no edit. *)
Lemma raises_morphology_step_partial cmd k gm out g :
  k < length (morph_lines cmd) ->
  raises morphology_step (mkWorld gm (take k (morph_lines cmd)) out g) EOFError (menu_post [] out g gm).
Proof.
  intros Hk. unfold morphology_step.
  destruct cmd, k as [|[|[|[|[|k]]]]]; simpl in *; try lia; repeat raise_step.
  all: unfold menu_post; world_simpl; split_and!; [done.. | finish_out].
Qed.

Lemma raises_morphology_menu cmds cmd k gm out g :
  k < length (morph_lines cmd) ->
  raises (while_true morphology_step)
    (mkWorld gm (cmd_lines morph_lines cmds ++ take k (morph_lines cmd)) out g)
    EOFError (menu_post [] out g (set_morphology (foldl apply_morph (morphology gm) cmds) gm)).
Proof.
  intros Hk. rewrite <- fold_morph.
  apply (raises_menu morphology_step morph_lines morph_upd);
    auto using runs_morphology_step_cmd, raises_morphology_step_partial, morph_lines_length.
Qed.
End Stage2.

(** ** The menus as a whole *)

(** The rules the stage-2 commands add, in order, their fields stripped. *)
Definition added_rules (cmds : list MorphCmd) : list MorphologyRule :=
  omap (fun c => match c with
                 | AddRule n t m d =>
                     Some (mkRule (PyStr.strip n) (PyStr.strip t) (PyStr.strip m) (PyStr.strip d))
                 | ListRules => None
                 end) cmds.

Lemma foldl_apply_morph_rules ms cmds :
  rules (foldl apply_morph ms cmds) = rules ms ++ added_rules cmds.
Proof.
  revert ms. induction cmds as [|[n t m d|] cmds IH]; intros ms; simpl.
  - by rewrite app_nil_r.
  - rewrite IH. simpl. by rewrite <- app_assoc.
  - apply IH.
Qed.

Lemma words_of_quiet out o : quiet o -> words_of (out ++ o) = words_of out.
Proof. intros (Hw & _). by rewrite words_of_app, Hw, app_nil_r. Qed.

Section Menus.
Context `{RS : RandomSource G}.

(** C6: refinement of the stage-1 menu (lines 73-89): on the lines of any
    sequence of inventory commands followed by a line that is no menu
    code, the loop returns, having read exactly those lines, with the
    inventory [foldl apply_phon] gives (spec 4.1: stripped graphemes,
    empty additions and absent removals ignored), the other fields of the
    game and the random source unchanged and no word printed. *)
Theorem phonology_menu_refines cmds x rest gm out (g : G) :
  phon_exit x = true ->
  exists w', while_true phonology_step (mkWorld gm (cmd_lines phon_lines cmds ++ x :: rest) out g) =
             Ret tt w' /\
    stdin w' = rest /\ rng w' = g /\
    game w' = set_phonology (foldl apply_phon (phonology gm) cmds) gm /\
    words_of (stdout w') = words_of out.
Proof.
  intros Hx.
  destruct (runs_phonology_menu cmds x rest gm out g Hx) as ([] & w' & H & Hi & Hr & Hg & o & Ho & Hq).
  exists w'. split_and!; try done. by rewrite Ho, words_of_quiet.
Qed.

(** C7: the rule table after the stage-2 menu (lines 103-124) from an
    empty table: on the lines of any sequence of rule commands followed by
    a line that is no menu code, the loop returns, having read exactly
    those lines, and the table holds the rules the player added, in order,
    with stripped fields; only when the player added none does it hold
    the three default rules (spec 8: the defaults are never added once the
    player has added a rule). *)
Theorem morphology_menu_rules cmds x rest gm out (g : G) :
  morph_exit x = true -> rules (morphology gm) = [] ->
  exists w', while_true morphology_step (mkWorld gm (cmd_lines morph_lines cmds ++ x :: rest) out g) =
             Ret tt w' /\
    stdin w' = rest /\ rng w' = g /\
    rules (morphology (game w')) =
      match added_rules cmds with
      | [] => rules (seed_default_rules empty_morphology)
      | rs => rs
      end.
Proof.
  intros Hx He.
  destruct (runs_morphology_menu cmds x rest gm out g Hx) as ([] & w' & H & Hi & Hr & Hg & _).
  exists w'. split_and!; try done. rewrite Hg. cbn [morphology set_morphology].
  unfold seed_default_rules. rewrite foldl_apply_morph_rules, He. simpl.
  destruct (added_rules cmds) eqn:E; simpl; by rewrite foldl_apply_morph_rules, He, E.
Qed.
(** C14: the input ends inside the stage-2 menu (lines 103-124), after the
    lines of any rule commands and the first lines of one more command:
    the loop raises [EOFError] (the [input] of the next field finds no
    line), the table holds the rules of the complete commands and no
    other (the incomplete rule is not added and the defaults are not
    seeded, lines 120-123 being never reached), the random source is
    untouched and no word is printed. *)
Theorem morphology_menu_eof cmds cmd k gm out (g : G) :
  k < length (morph_lines cmd) ->
  exists w', while_true morphology_step
               (mkWorld gm (cmd_lines morph_lines cmds ++ take k (morph_lines cmd)) out g) =
             Exn EOFError w' /\
    stdin w' = [] /\ rng w' = g /\
    rules (morphology (game w')) = rules (morphology gm) ++ added_rules cmds /\
    words_of (stdout w') = words_of out.
Proof.
  intros Hk.
  destruct (raises_morphology_menu cmds cmd k gm out g Hk) as (w' & H & Hi & Hr & Hg & o & Ho & Hq).
  exists w'. split_and!; try done.
  - rewrite Hg. cbn [morphology set_morphology]. apply foldl_apply_morph_rules.
  - by rewrite Ho, words_of_quiet.
Qed.
End Menus.

Lemma phonology_menu_refines_witness :
  exists w', while_true phonology_step
               (mkWorld init_game (cmd_lines phon_lines [AddConsonant " q "; RemoveVowel "a"] ++
                                   "" :: []) [] ([] : list nat)) = Ret tt w' /\
    stdin w' = [] /\ rng w' = [] /\
    game w' = set_phonology (foldl apply_phon (phonology init_game)
                               [AddConsonant " q "; RemoveVowel "a"]) init_game /\
    words_of (stdout w') = words_of [].
Proof. apply phonology_menu_refines. vm_compute. reflexivity. Defined.

Lemma morphology_menu_rules_witness :
  exists w', while_true morphology_step
               (mkWorld init_game (cmd_lines morph_lines [ListRules; AddRule "plural" "suffix" "-na" "pl"] ++
                                   "" :: []) [] ([] : list nat)) = Ret tt w' /\
    stdin w' = [] /\ rng w' = [] /\
    rules (morphology (game w')) =
      match added_rules [ListRules; AddRule "plural" "suffix" "-na" "pl"] with
      | [] => rules (seed_default_rules empty_morphology)
      | rs => rs
      end.
Proof. apply morphology_menu_rules; vm_compute; reflexivity. Defined.

(** The player adds one rule, then types only the name, the type and the
    marker of a second one. *)
Lemma morphology_menu_eof_witness :
  exists w', while_true morphology_step
               (mkWorld init_game (cmd_lines morph_lines [AddRule "plural" "suffix" "-na" "pl"] ++
                   take 4 (morph_lines (AddRule "past" "prefix" "ma-" "done"))) [] ([] : list nat)) =
             Exn EOFError w' /\
    stdin w' = [] /\ rng w' = [] /\
    rules (morphology (game w')) =
      rules (morphology init_game) ++ added_rules [AddRule "plural" "suffix" "-na" "pl"] /\
    words_of (stdout w') = words_of [].
Proof. apply morphology_menu_eof. simpl. lia. Defined.

End Menus.
