(* ===== verification/Session.v ===== *)
(** * Whole sessions

    The run of [main] on input scripts, for every random source. Any
    session ([session_script]: commands for both menus, exit lines and the
    two stage-3 settings) runs to its end when the edited inventory is
    non-empty ([session_completes]); the default session of the
    specification is its instance. Any stage-1 commands that empty the
    vowel set crash the run ([vowel_loss_crashes]); input that ends inside
    the stage-1 menu stops it with [EOFError] before any word is drawn
    ([phonology_input_ends]). The stage lemmas
    execute each stage symbolically with [Exec.exec_step] and use the menu
    lemmas of [Menus]; the random draws stay universally quantified and
    only their ranges are used. *)
From stdpp Require Import gmap.
From S2P Require Import Prelude PyStr PyRandom Phonology Morphology Syntax Vocab Game GameProps Exec Menus.
Import Phonology Morphology Syntax Vocab Game GameProps Exec Menus.

Module Session.

(** ** The stages on the default inputs *)
Section Stages.
Context `{RS : RandomSource G}.
Implicit Types (gm : Game) (inp : list string) (out : list Out) (g : G).

Lemma runs_display_welcome gm l rest out g :
  runs display_welcome (mkWorld gm (l :: rest) out g)
    (fun _ (w' : World G) => game w' = gm /\ stdin w' = rest /\ rng w' = g /\
       exists o, stdout w' = out ++ o /\ quiet o).
Proof.
  unfold display_welcome. repeat exec_step. world_simpl.
  split_and!; try reflexivity. eexists; split; [rewrite <- !app_assoc; reflexivity|].
  repeat split.
Qed.

(** Stage 1 with Enter at the menu: five words are generated, printed and
    filed as unknown, and nothing else changes. *)
Lemma runs_level_1 cmds x gm l rest out g :
  phon_exit x = true -> inventory_ok (foldl apply_phon (phonology gm) cmds) ->
  runs level_1_phonology (mkWorld gm (cmd_lines phon_lines cmds ++ x :: l :: rest) out g)
    (fun _ (w' : World G) =>
       phonology (game w') = foldl apply_phon (phonology gm) cmds /\
       morphology (game w') = morphology gm /\
       syntax (game w') = syntax gm /\ stdin w' = rest /\
       exists o, stdout w' = out ++ o /\ length (words_of o) = 5 /\
         sentences_of o = [] /\ questions_of o = [] /\ samples_of o = [] /\
         dd_lookup (vocab (game w')) "unknown" = dd_lookup (vocab gm) "unknown" ++ words_of o /\
         (forall k, k <> "unknown" -> dd_lookup (vocab (game w')) k = dd_lookup (vocab gm) k)).
Proof.
  intros Hx (Hc & Hv & Hp). unfold level_1_phonology. repeat exec_step.
  eapply runs_mono; [|by apply runs_phonology_menu].
  intros _ [gm1 inp1 out1 g1] (Hi & Hr & Hg & o & Ho & Hq). world_simpl. subst.
  unfold generate_sample_word. repeat exec_step. world_simpl. split_and!; try reflexivity.
  eexists. split; [rewrite <- !app_assoc; reflexivity|].
  destruct Hq as (Hw & Hs & Hq & Hsa).
  autorewrite with py_rw. rewrite Hw, Hs, Hq, Hsa. split_and!; try reflexivity.
  - repeat case_decide; try congruence. by rewrite <- !app_assoc.
  - intros k Hk. rewrite !dd_lookup_append. repeat case_decide; congruence.
Qed.

(** Lines 131-136: the demonstration prints nothing on an empty bucket and
    otherwise one line with a word of the bucket and its affixed form. *)
Lemma runs_demo k rule (ev : string -> string -> Out) gm inp out g :
  runs (demo k rule ev) (mkWorld gm inp out g)
    (fun _ (w' : World G) =>
       phonology (game w') = phonology gm /\ morphology (game w') = morphology gm /\
       syntax (game w') = syntax gm /\ stdin w' = inp /\
       dd_equiv (vocab (game w')) (vocab gm) /\
       exists o, stdout w' = out ++ o /\
         (o = [] \/ exists x, x ∈ dd_lookup (vocab gm) k /\
                             o = [ev x (apply_morphology (morphology gm) x rule)])).
Proof.
  unfold demo. apply runs_bind, runs_vget_world. intros m Hm. cbv beta. world_simpl.
  destruct (dd_lookup (vocab gm) k) as [|y ys] eqn:E.
  - apply runs_ret. world_simpl. split_and!; try done. exists []. by rewrite app_nil_r; auto.
  - apply runs_bind, runs_vget_world. intros m' Hm'. cbv beta. world_simpl.
    apply runs_bind. rewrite Hm, E.
    apply runs_rand_choice_world; [done|]. intros x g' Hx. cbv beta.
    repeat exec_step. world_simpl. split_and!; try done.
    { by rewrite Hm'. }
    exists [ev x (apply_morphology (morphology gm) x rule)]. split; [done|]. right. eauto.
Qed.

(** Lines 152-154: a word of the bucket when it has one, a fresh word
    otherwise; only the random state and the key set change. *)
Lemma runs_pick k gm inp out g :
  inventory_ok (phonology gm) ->
  runs (pick k) (mkWorld gm inp out g)
    (fun x (w' : World G) =>
       phonology (game w') = phonology gm /\ morphology (game w') = morphology gm /\
       syntax (game w') = syntax gm /\ stdin w' = inp /\ stdout w' = out /\
       dd_equiv (vocab (game w')) (vocab gm) /\
       (dd_lookup (vocab gm) k <> [] -> x ∈ dd_lookup (vocab gm) k)).
Proof.
  intros (Hc & Hv & Hp). unfold pick.
  apply runs_bind, runs_vget_world. intros m Hm. cbv beta. world_simpl.
  destruct (dd_lookup (vocab gm) k) as [|y ys] eqn:E.
  - repeat exec_step. world_simpl. split_and!; done.
  - apply runs_bind, runs_vget_world. intros m' Hm'. cbv beta. world_simpl.
    rewrite Hm, E. apply runs_rand_choice_world; [done|]. intros x g' Hx.
    world_simpl. split_and!; try done. by rewrite Hm'.
Qed.

(** A sentence made of words of the buckets of [vb], each bucket being
    used when it is not empty (lines 152-155). *)
Definition sentence_from (sy : SyntaxSystem) (vb : gmap string (list string)) (s : string) : Prop :=
  exists subj v obj, s = generate_sentence sy subj v obj /\
    (dd_lookup vb "noun" <> [] -> subj ∈ dd_lookup vb "noun" /\ obj ∈ dd_lookup vb "noun") /\
    (dd_lookup vb "verb" <> [] -> v ∈ dd_lookup vb "verb").

#[export] Instance sentence_from_proper sy : Proper (dd_equiv ==> eq ==> iff) (sentence_from sy).
Proof. intros v1 v2 H s ? <-. unfold sentence_from. by rewrite !(H "noun"), !(H "verb"). Qed.

Lemma runs_sample_sentence i gm inp out g :
  inventory_ok (phonology gm) ->
  runs (sample_sentence i) (mkWorld gm inp out g)
    (fun _ (w' : World G) =>
       phonology (game w') = phonology gm /\ morphology (game w') = morphology gm /\
       syntax (game w') = syntax gm /\ stdin w' = inp /\
       dd_equiv (vocab (game w')) (vocab gm) /\
       exists s, sentence_from (syntax gm) (vocab gm) s /\
         stdout w' = out ++ [OSentence (i + 1) s; OQuestion (question_form (syntax gm) s)]).
Proof.
  intros Hinv. unfold sample_sentence.
  apply runs_bind. eapply runs_mono. 2: { by apply runs_pick. }
  intros subj [gm1 inp1 out1 g1] (Hp1&Hm1&Hs1&Hi1&Ho1&Hv1&Hsub). world_simpl. subst inp1 out1.
  apply runs_bind. eapply runs_mono. 2: { apply runs_pick. by rewrite Hp1. }
  intros v [gm2 inp2 out2 g2] (Hp2&Hm2&Hs2&Hi2&Ho2&Hv2&Hverb). world_simpl. subst inp2 out2.
  apply runs_bind. eapply runs_mono. 2: { apply runs_pick. by rewrite Hp2, Hp1. }
  intros obj [gm3 inp3 out3 g3] (Hp3&Hm3&Hs3&Hi3&Ho3&Hv3&Hobj). world_simpl. subst inp3 out3.
  repeat exec_step. world_simpl. rewrite Hs3, Hs2, Hs1.
  split_and!; try congruence.
  exists (generate_sentence (syntax gm) subj v obj). split; [|by rewrite <- app_assoc].
  exists subj, v, obj. split; [done|].
  rewrite Hv1 in Hverb. rewrite Hv2, Hv1 in Hobj. split; auto.
Qed.

(** Stage 3 on answers [o] and [q]: the settings are updated as lines
    146-148 say, and three sentences of the buckets are printed, each
    followed by its question form. *)
Lemma runs_level_3 gm o q l rest out g :
  inventory_ok (phonology gm) ->
  runs level_3_syntax (mkWorld gm (o :: q :: l :: rest) out g)
    (fun _ (w' : World G) =>
       phonology (game w') = phonology gm /\ morphology (game w') = morphology gm /\
       syntax (game w') =
         set_question_marker (PyStr.strip q) (set_word_order (PyStr.strip o) (syntax gm)) /\
       stdin w' = rest /\ dd_equiv (vocab (game w')) (vocab gm) /\
       exists o', stdout w' = out ++ o' /\ words_of o' = [] /\ samples_of o' = [] /\
         length (sentences_of o') = 3 /\
         questions_of o' = map (question_form (syntax (game w'))) (sentences_of o') /\
         Forall (sentence_from (syntax (game w')) (vocab gm)) (sentences_of o')).
Proof.
  intros Hinv. unfold level_3_syntax. repeat exec_step. world_simpl.
  set (sy := set_question_marker (PyStr.strip q) (set_word_order (PyStr.strip o) (syntax gm))).
  eapply runs_mono. 2: { by apply runs_sample_sentence. }
  intros _ [gm1 inp1 out1 g1] (Hp1&Hm1&Hs1&Hi1&Hv1&s1&Hf1&Ho1). world_simpl. subst inp1 out1.
  apply runs_bind. eapply runs_mono. 2: { apply runs_sample_sentence. by rewrite Hp1. }
  intros _ [gm2 inp2 out2 g2] (Hp2&Hm2&Hs2&Hi2&Hv2&s2&Hf2&Ho2). world_simpl. subst inp2 out2.
  apply runs_bind. eapply runs_mono. 2: { apply runs_sample_sentence. by rewrite Hp2, Hp1. }
  intros _ [gm3 inp3 out3 g3] (Hp3&Hm3&Hs3&Hi3&Hv3&s3&Hf3&Ho3). world_simpl. subst inp3 out3.
  repeat exec_step. world_simpl. rewrite Hs2, Hs1 in *.
  rewrite Hv1 in Hf2. rewrite Hv2, Hv1 in Hf3.
  split_and!; try congruence.
  eexists. split; [rewrite <- !app_assoc; reflexivity|]. rewrite Hs3.
  split_and!; try reflexivity. simpl. repeat constructor; done.
Qed.

Lemma quiet_demo (ev : string -> string -> Out) o (v : list string) x :
  (forall a b, quiet [ev a b]) -> (o = [] \/ exists y, y ∈ v /\ o = [ev y (x y)]) -> quiet o.
Proof. intros Hev [->|(y & _ & ->)]; [repeat split | apply Hev]. Qed.

Lemma quiet_past a b : quiet [OPast a b].
Proof. repeat split. Qed.

Lemma quiet_nominal a b : quiet [ONominal a b].
Proof. repeat split. Qed.

(** Stage 2 with Enter at the menu: the default rules are seeded when the
    table is empty, every unknown word moves to exactly one bucket, and
    the transcript shows no word, sentence or showcase line. *)
Lemma runs_level_2 cmds x gm l rest out g :
  morph_exit x = true ->
  runs level_2_morphology (mkWorld gm (cmd_lines morph_lines cmds ++ x :: l :: rest) out g)
    (fun _ (w' : World G) =>
       phonology (game w') = phonology gm /\ syntax (game w') = syntax gm /\
       morphology (game w') = seed_default_rules (foldl apply_morph (morphology gm) cmds) /\
       stdin w' = rest /\
       dd_lookup (vocab (game w')) "unknown" = [] /\
       (exists vs ns,
          dd_lookup (vocab (game w')) "verb" = dd_lookup (vocab gm) "verb" ++ vs /\
          dd_lookup (vocab (game w')) "noun" = dd_lookup (vocab gm) "noun" ++ ns /\
          vs ++ ns ≡ₚ dd_lookup (vocab gm) "unknown") /\
       exists o, stdout w' = out ++ o /\ quiet o).
Proof.
  intros Hx. unfold level_2_morphology. repeat exec_step.
  eapply runs_mono; [|by apply runs_morphology_menu].
  intros _ [gm0 inp0 out0 g0] (Hi0 & Hr0 & Hg0 & o0 & Ho0 & Hq0). world_simpl. subst.
  repeat exec_step.
  eapply runs_mono. 2: { apply runs_reclassify. }
  intros _ [gm1 inp1 out1 g1] (Hsame & Hout & Hunk & vs & ns & Hv & Hn & Hp).
  unfold same_but_vocab in Hsame. world_simpl. destruct Hsame as (Hp1 & Hm1 & Hs1 & Hi1).
  subst inp1 out1. repeat exec_step.
  eapply runs_mono. 2: { apply runs_demo. }
  intros _ [gm2 inp2 out2 g2] (Hp2 & Hm2 & Hs2 & Hi2 & Hv2 & o2 & Ho2 & Hd2).
  world_simpl. subst inp2 out2. apply runs_bind.
  eapply runs_mono. 2: { apply runs_demo. }
  intros _ [gm3 inp3 out3 g3] (Hp3 & Hm3 & Hs3 & Hi3 & Hv3 & o3 & Ho3 & Hd3).
  world_simpl. subst inp3 out3. repeat exec_step. world_simpl.
  split_and!; try congruence.
  - exists vs, ns. by rewrite Hv3, Hv2.
  - eexists. split; [rewrite <- !app_assoc; reflexivity|].
    pose proof (quiet_demo _ _ _ _ quiet_past Hd2).
    pose proof (quiet_demo _ _ _ _ quiet_nominal Hd3).
    repeat apply quiet_app; try done; repeat split.
Qed.

(** The showcase prints the six fixed sentences, numbered from 1. *)
Lemma runs_final_showcase gm inp out g :
  runs final_showcase (mkWorld gm inp out g)
    (fun _ (w' : World G) => game w' = gm /\ stdin w' = inp /\
       exists o, stdout w' = out ++ o /\ words_of o = [] /\ sentences_of o = [] /\
         questions_of o = [] /\ samples_of o = zip (seq 1 (length samples)) samples).
Proof.
  unfold final_showcase. repeat exec_step. world_simpl. split_and!; try reflexivity.
  eexists. split; [rewrite <- !app_assoc; reflexivity|]. split_and!; reflexivity.
Qed.

End Stages.

(** ** Any session

    The input of a session that plays every stage to its end: a line at
    the welcome screen; the stage-1 commands, the line that leaves the
    menu and the line at the end of stage 1; the stage-2 commands, the
    line that leaves the menu and the line at the end of stage 2; the two
    settings of stage 3 and the line at its end. *)
Definition session_script (w0 : string) (pcmds : list PhonCmd) (px l1 : string)
    (mcmds : list MorphCmd) (mx l2 o q l3 : string) : list string :=
  w0 :: cmd_lines phon_lines pcmds ++ px :: l1 ::
  cmd_lines morph_lines mcmds ++ mx :: l2 :: [o; q; l3].

(** What a completed session leaves: the input read to its end; the
    inventory, rules and syntax the commands and settings give; 5 words,
    3 sentences each with its question, the six showcase lines; the
    vocabulary partitioned; every sentence made of bucket words. *)
Definition session_post {G} (pcmds : list PhonCmd) (mcmds : list MorphCmd) (o q : string)
    (w' : World G) : Prop :=
  stdin w' = [] /\
  phonology (game w') = foldl apply_phon default_phonology pcmds /\
  morphology (game w') = seed_default_rules (foldl apply_morph empty_morphology mcmds) /\
  syntax (game w') = set_question_marker (PyStr.strip q) (set_word_order (PyStr.strip o) default_syntax) /\
  length (words_of (stdout w')) = 5 /\
  length (sentences_of (stdout w')) = 3 /\
  questions_of (stdout w') = map (question_form (syntax (game w'))) (sentences_of (stdout w')) /\
  samples_of (stdout w') = zip (seq 1 (length samples)) samples /\
  dd_lookup (vocab (game w')) "unknown" = [] /\
  dd_lookup (vocab (game w')) "verb" ++ dd_lookup (vocab (game w')) "noun" ≡ₚ words_of (stdout w') /\
  Forall (sentence_from (syntax (game w')) (vocab (game w'))) (sentences_of (stdout w')).

Lemma default_inventory_ok : inventory_ok default_phonology.
Proof. split_and!; [vm_compute; discriminate | vm_compute; discriminate | discriminate]. Qed.

Section AnySession.
Context `{RS : RandomSource G}.

Lemma runs_session w0 pcmds px l1 mcmds mx l2 o q l3 (g : G) :
  phon_exit px = true -> morph_exit mx = true ->
  inventory_ok (foldl apply_phon default_phonology pcmds) ->
  runs run_game (mkWorld init_game (session_script w0 pcmds px l1 mcmds mx l2 o q l3) [] g)
    (fun _ => session_post pcmds mcmds o q).
Proof.
  intros Hpx Hmx Hinv. unfold run_game, session_script.
  apply runs_bind. eapply runs_mono. 2: { apply runs_display_welcome. }
  intros _ [gm0 inp0 out0 g0] H. world_simpl. destruct H as (-> & -> & -> & o0 & -> & Hq0).
  apply runs_bind. eapply runs_mono. 2: { by apply (runs_level_1 pcmds px). }
  intros _ [gm1 inp1 out1 g1] H. world_simpl.
  destruct H as (Hp1 & Hm1 & Hs1 & -> & o1 & -> & Hw1 & Hs1' & Hq1' & Hm1' & Hu1 & Hk1).
  apply runs_bind. eapply runs_mono. 2: { by apply (runs_level_2 mcmds mx). }
  intros _ [gm2 inp2 out2 g2] H. world_simpl.
  destruct H as (Hp2 & Hs2 & Hm2 & -> & Hu2 & (vs & ns & Hv2 & Hn2 & Hperm) & o2 & -> & Hq2).
  apply runs_bind. eapply runs_mono. 2: { apply runs_level_3. by rewrite Hp2, Hp1. }
  intros _ [gm3 inp3 out3 g3] H. world_simpl.
  destruct H as (Hp3 & Hm3 & Hs3 & -> & Hv3 & o3 & -> & Hw3 & Hsa3 & Hlen3 & Hq3 & Hf3).
  eapply runs_mono. 2: { apply runs_final_showcase. }
  intros _ [gm4 inp4 out4 g4] H. world_simpl.
  destruct H as (-> & -> & o4 & -> & Hw4 & Hs4 & Hq4 & Hsa4).
  destruct Hq0 as (Hw0 & Hs0 & Hq0 & Hsa0). destruct Hq2 as (Hw2 & Hs2' & Hq2 & Hsa2).
  unfold session_post. world_simpl. autorewrite with py_rw. simpl.
  rewrite Hw0, Hw2, Hw3, Hw4, Hs0, Hs1', Hs2', Hs4, Hq0, Hq1', Hq2, Hq4, Hsa0, Hm1', Hsa2, Hsa3, Hsa4.
  rewrite ?app_nil_r. split_and!; try done.
  - by rewrite Hp3, Hp2, Hp1.
  - by rewrite Hm3, Hm2, Hm1.
  - by rewrite Hs3, Hs2, Hs1.
  - by rewrite Hv3.
  - rewrite !Hv3, Hv2, Hn2, !Hk1 by done. simpl. rewrite Hu1 in Hperm. by rewrite Hperm.
  - eapply Forall_impl; [exact Hf3|]. intros s Hs. by rewrite Hv3.
Qed.

(** C2: liveness of a whole session: for every sequence of stage-1 and
    stage-2 commands, every choice of word order and question marker and
    every random source, a session that leaves each menu by a line that is
    no menu code runs to its end ([Ret]) provided the edited inventory
    still has consonants, vowels and patterns; it ends with the state and
    transcript [session_post] describes: the inventory and the rule table
    the commands build (the defaults seeded only into an empty table),
    the syntax the settings give, 5 words, 3 sentences with their
    questions, the six showcase lines, and a partitioned vocabulary. *)
Theorem session_completes w0 pcmds px l1 mcmds mx l2 o q l3 (g : G) :
  phon_exit px = true -> morph_exit mx = true ->
  inventory_ok (foldl apply_phon default_phonology pcmds) ->
  exists w', main (session_script w0 pcmds px l1 mcmds mx l2 o q l3) g = Ret tt w' /\
    session_post pcmds mcmds o q w'.
Proof.
  intros Hpx Hmx Hinv.
  destruct (runs_session w0 pcmds px l1 mcmds mx l2 o q l3 g Hpx Hmx Hinv) as ([] & w' & H & Hp).
  eauto.
Qed.

(** The session of the specification: Enter at every prompt. *)
Definition default_script : list string := ["" ; ""; ""; ""; ""; ""; ""; ""].

(** C1: the end-to-end scenario of the specification: from the initial
    game, answering every prompt with Enter, the run ends normally having
    read the whole script, whatever the random draws. It prints exactly 5
    generated words and 3 sentences, each followed by its question (the
    sentence, a space and ["ka"]), and then the six fixed showcase lines
    verbatim and in order. Afterwards the three default rules are in the
    table, the unknown bucket is empty, the verb and noun buckets hold the
    five words between them, each once, and every sentence is made of
    bucket words. *)
Theorem default_session (g : G) :
  exists w', main default_script g = Ret tt w' /\ stdin w' = [] /\
    length (words_of (stdout w')) = 5 /\
    length (sentences_of (stdout w')) = 3 /\
    questions_of (stdout w') = map (fun s => s ++ " ka")%string (sentences_of (stdout w')) /\
    samples_of (stdout w') =
      [(1, "mita laqi bubu"); (2, "miying Tama"); (3, "ma-lukus laqi");
       (4, "pita qhuni idaw"); (5, "s-malu tama laqi"); (6, "miyax bubu qhuni")] /\
    morphology (game w') = seed_default_rules empty_morphology /\
    dd_lookup (vocab (game w')) "unknown" = [] /\
    dd_lookup (vocab (game w')) "verb" ++ dd_lookup (vocab (game w')) "noun"
      ≡ₚ words_of (stdout w') /\
    Forall (sentence_from default_syntax (vocab (game w'))) (sentences_of (stdout w')).
Proof.
  destruct (runs_session "" [] "" "" [] "" "" "" "" "" g) as ([] & w' & H & Hpost);
    [done | done | apply default_inventory_ok |].
  destruct Hpost as (Hi & _ & Hm & Hsy & Hw & Hs & Hq & Hsa & Hu & Hperm & Hf).
  assert (syntax (game w') = default_syntax) as Hd by (rewrite Hsy; reflexivity).
  rewrite Hd in Hq, Hf. exists w'. by split_and!.
Qed.

End AnySession.

(** A session with edits in both menus and both settings changed. *)
Lemma session_completes_witness :
  exists w', main (session_script "" [AddConsonant "q"; RemoveVowel "o"] "" ""
                     [AddRule "plural" "suffix" "-na" "複數"; ListRules] "" "" "SVO" "ma" "")
               ([] : list nat) = Ret tt w' /\
    session_post [AddConsonant "q"; RemoveVowel "o"]
      [AddRule "plural" "suffix" "-na" "複數"; ListRules] "SVO" "ma" w'.
Proof.
  apply session_completes; [done | done |].
  split_and!; [vm_compute; discriminate | vm_compute; discriminate | discriminate].
Defined.

(** ** Losing every vowel *)

(** The input up to the end of the stage-1 menu: the welcome line, the
    stage-1 commands and the exit line, then anything. *)
Definition stage1_script (w0 : string) (pcmds : list PhonCmd) (px : string)
    (rest : list string) : list string :=
  w0 :: cmd_lines phon_lines pcmds ++ px :: rest.

(** The input that ends inside the stage-1 menu: the welcome line, the
    lines of complete commands, then the first [k] lines of one more. *)
Definition stage1_partial (w0 : string) (pcmds : list PhonCmd) (cmd : PhonCmd) (k : nat) :
    list string :=
  w0 :: cmd_lines phon_lines pcmds ++ take k (phon_lines cmd).

Section Crash.
Context `{RS : RandomSource G}.

Lemma raises_rand_generate_word_world ph gm inp out g (Q : World G -> Prop) :
  vowels ph = ∅ -> Forall (fun p => has_vowel_slot p = true) (syllable_patterns ph) ->
  (forall g', Q (mkWorld gm inp out g')) ->
  raises (rand (generate_word ph None)) (mkWorld gm inp out g) IndexError Q.
Proof.
  intros Hv Hall HQ. destruct (generate_word_no_vowels ph g Hv Hall) as (g' & H).
  exists (mkWorld gm inp out g'). unfold rand, lift. cbn. by rewrite H.
Qed.

(** Executes a session that raises in [generate_word]: a [bind] raises
    on its left when the left computation draws a word. *)
Ltac crash_step :=
  first
    [ exec_step
    | match goal with
      | |- raises (bind ?m _) _ _ _ =>
          lazymatch m with
          | context [generate_word] => apply raises_bind_l
          | _ => apply raises_bind_r
          end
      end ].

(** C12: the latent defect of line 14 on every session that reaches it:
    whatever the stage-1 commands, if they leave the vowel set empty
    (removals are accepted down to the last vowel, line 87) then, when the
    player leaves the menu, the run crashes with [IndexError] in the
    first call of [generate_word], whatever the random draws, before any
    word is printed and having read nothing after the exit line. *)
Theorem vowel_loss_crashes w0 pcmds px rest (g : G) :
  phon_exit px = true -> vowels (foldl apply_phon default_phonology pcmds) = ∅ ->
  exists w', main (stage1_script w0 pcmds px rest) g = Exn IndexError w' /\
    vowels (phonology (game w')) = ∅ /\ words_of (stdout w') = [] /\ stdin w' = rest.
Proof.
  intros Hpx Hv. unfold main, run_game, stage1_script. apply raises_bind_r.
  eapply runs_mono. 2: { apply runs_display_welcome. }
  intros _ [gm0 inp0 out0 g0] H. world_simpl. destruct H as (-> & -> & -> & o0 & -> & Hq0 & _).
  apply raises_bind_l. unfold level_1_phonology, generate_sample_word.
  do 5 (apply raises_bind_r; repeat exec_step).
  apply raises_bind_r. eapply runs_mono. 2: { by apply runs_phonology_menu. }
  intros _ [gm1 inp1 out1 g1] (Hi & Hr & Hg & o & Ho & Hq). world_simpl. subst.
  repeat crash_step. apply raises_rand_generate_word_world.
  - done.
  - cbn [phonology set_phonology]. rewrite apply_phon_patterns. repeat constructor.
  - intros g'. world_simpl. split_and!; [done | | done].
    destruct Hq as (Hw & _). words_simpl. by rewrite Hq0, Hw.
Qed.
(** C13: the input ends inside the stage-1 menu (lines 73-89), after the
    welcome line, the lines of any inventory commands and the first lines
    of one more command: the run stops with [EOFError] at the [input] that
    finds no line, with the inventory the complete commands give (the
    incomplete one is not applied), before any word is generated: no word
    is printed and the random source is never drawn from. *)
Theorem phonology_input_ends w0 pcmds cmd k (g : G) :
  k < length (phon_lines cmd) ->
  exists w', main (stage1_partial w0 pcmds cmd k) g = Exn EOFError w' /\
    phonology (game w') = foldl apply_phon default_phonology pcmds /\
    words_of (stdout w') = [] /\ stdin w' = [] /\ rng w' = g.
Proof.
  intros Hk. unfold main, run_game, stage1_partial. apply raises_bind_r.
  eapply runs_mono. 2: { apply runs_display_welcome. }
  intros _ [gm0 inp0 out0 g0] H. world_simpl. destruct H as (-> & -> & -> & o0 & -> & Hq0).
  apply raises_bind_l. unfold level_1_phonology.
  do 5 (apply raises_bind_r; repeat exec_step).
  apply raises_bind_l. eapply raises_mono; [|by apply raises_phonology_menu].
  intros [gm1 inp1 out1 g1] (Hi & Hr & Hg & o & Ho & Hq). world_simpl. subst.
  split_and!; try done. destruct Hq as (Hw & _). words_simpl. by rewrite (proj1 Hq0), Hw.
Qed.
End Crash.

(** The welcome screen, then option 4 of the stage-1 menu with each of the
    five default vowels, then Enter at the menu. *)
Definition vowel_removal_script : list string :=
  [""; "4"; "i"; "4"; "u"; "4"; "e"; "4"; "o"; "4"; "a"; ""].

Lemma vowel_loss_crashes_witness :
  exists w', main vowel_removal_script ([] : list nat) = Exn IndexError w' /\
    vowels (phonology (game w')) = ∅ /\ words_of (stdout w') = [] /\ stdin w' = [].
Proof.
  apply (vowel_loss_crashes "" [RemoveVowel "i"; RemoveVowel "u"; RemoveVowel "e";
                                RemoveVowel "o"; RemoveVowel "a"] "" []).
  - reflexivity.
  - apply (bool_decide_unpack _). vm_compute. exact I.
Defined.

(** The welcome line, one vowel added, then only the code of a removal. *)
Lemma phonology_input_ends_witness :
  exists w', main (stage1_partial "" [AddVowel "ai"] (RemoveConsonant "p") 1)
               ([] : list nat) = Exn EOFError w' /\
    phonology (game w') = foldl apply_phon default_phonology [AddVowel "ai"] /\
    words_of (stdout w') = [] /\ stdin w' = [] /\ rng w' = [].
Proof. apply phonology_input_ends. simpl. lia. Defined.

End Session.
